(** * CohereBedrockEmbeddings: the Cohere-on-Bedrock embedding adapter

    A shallow embedding of [CohereBedrockEmbeddings] (constructor,
    [invokeCohere], [extractEmbeddings], [batchTexts], [embedDocuments],
    [embedQuery]) and the properties of its request shaping, batching and
    response normalisation.

    Conventions of the embedding.
    - A JavaScript [number] that is used as a count or an index is a [Z]
      (a batch size is an integer; fractional sizes and [NaN] are outside
      the model); the numbers inside a JSON document are kept abstract
      ([number]), with their rendering [Number_toString].
    - A string is a [string] of bytes (the UTF-8 encoding of the text).
    - A JavaScript value that may be [undefined] is an [option]: [None] is
      [undefined].
    - A thrown exception is the left injection of a sum.
    - The network is an oracle [remote]; every request the adapter sends is
      recorded in a trace. *)

From Stdlib Require Import List ZArith String Ascii Bool Lia DecimalString.
Import ListNotations.

#[local] Open Scope string_scope.
#[local] Open Scope Z_scope.

(** ** Exceptions *)

(** A thrown JavaScript error object: its class name and its message. *)
Record JsError : Type := mkJsError { name : string; message : string }.

Definition Error (msg : string) : JsError := mkJsError "Error" msg.
Definition TypeError (msg : string) : JsError := mkJsError "TypeError" msg.

(** ** Configuration types *)

(** [CohereInputType]. *)
Inductive CohereInputType : Type :=
| search_document
| search_query
| classification
| clustering.

(** [CohereTruncate]. *)
Inductive CohereTruncate : Type :=
| NONE
| START
| END_.

(** The string each literal type stands for. *)
Definition CohereInputType_value (t : CohereInputType) : string :=
  match t with
  | search_document => "search_document"
  | search_query => "search_query"
  | classification => "classification"
  | clustering => "clustering"
  end.

Definition CohereTruncate_value (t : CohereTruncate) : string :=
  match t with
  | NONE => "NONE"
  | START => "START"
  | END_ => "END"
  end.

(** [CohereBedrockEmbeddingsParams]: the optional fields are [option]s
    ([None] is a field left out).  The client fields are the oracle
    [remote] below. *)
Record CohereBedrockEmbeddingsParams : Type := mkParams {
  params_model : string;
  params_inputTypeDocument : option CohereInputType;
  params_inputTypeQuery : option CohereInputType;
  params_truncate : option CohereTruncate;
  params_batchSize : option Z;
  params_maxRetries : option nat
}.

(** The fields of a constructed [CohereBedrockEmbeddings]. *)
Record CohereBedrockEmbeddings : Type := mkAdapter {
  model : string;
  inputTypeDocument : CohereInputType;
  inputTypeQuery : CohereInputType;
  truncate : CohereTruncate;
  batchSize : Z;
  maxRetries : nat
}.

(** [a ?? b]. *)
Definition nullish {A : Type} (a : option A) (b : A) : A :=
  match a with
  | Some x => x
  | None => b
  end.

Infix "??" := nullish (at level 45, left associativity).

(** [constructor(params)]. *)
Definition constructor (params : CohereBedrockEmbeddingsParams)
  : CohereBedrockEmbeddings :=
  {| model := params_model params;
     inputTypeDocument := params_inputTypeDocument params ?? search_document;
     inputTypeQuery := params_inputTypeQuery params ?? search_query;
     truncate := params_truncate params ?? END_;
     batchSize := Z.min (params_batchSize params ?? 96) 96;
     maxRetries := params_maxRetries params ?? 3%nat |}.

(** The adapter [this] with [inputType] as its document input-type. *)
Definition with_inputTypeDocument (this : CohereBedrockEmbeddings)
    (inputType : CohereInputType) : CohereBedrockEmbeddings :=
  {| model := model this;
     inputTypeDocument := inputType;
     inputTypeQuery := inputTypeQuery this;
     truncate := truncate this;
     batchSize := batchSize this;
     maxRetries := maxRetries this |}.

(** [InvokeModelCommand]: what one request carries. *)
Record InvokeModelCommand : Type := mkCommand {
  modelId : string;
  body : string;
  contentType : string;
  accept : string
}.

(** ** Strings *)

Definition newline : ascii := ascii_of_nat 10.
Definition space : ascii := ascii_of_nat 32.
Definition dquote : ascii := ascii_of_nat 34.
Definition backslash : ascii := ascii_of_nat 92.

(** [text.replace(/\n/g, ' ')]. *)
Fixpoint replace_newlines (text : string) : string :=
  match text with
  | EmptyString => EmptyString
  | String c rest =>
      String (if Ascii.eqb c newline then space else c) (replace_newlines rest)
  end.

(** The characters of a string, each as a one-character string (a character
    is a byte here, which is exact for ASCII text). *)
Fixpoint characters (s : string) : list string :=
  match s with
  | EmptyString => []
  | String c rest => String c EmptyString :: characters rest
  end.

Definition hex_digit (n : nat) : ascii :=
  ascii_of_nat (if Nat.ltb n 10 then 48 + n else 87 + n)%nat.

(** How [JSON.stringify] writes one character inside a string literal. *)
Definition escape_char (c : ascii) : string :=
  let n := nat_of_ascii c in
  if Nat.eqb n 8 then "\b"
  else if Nat.eqb n 9 then "\t"
  else if Nat.eqb n 10 then "\n"
  else if Nat.eqb n 12 then "\f"
  else if Nat.eqb n 13 then "\r"
  else if Nat.eqb n 34 then String backslash (String dquote EmptyString)
  else if Nat.eqb n 92 then String backslash (String backslash EmptyString)
  else if Nat.ltb n 32 then
    "\u00" ++ String (hex_digit (n / 16)) (String (hex_digit (n mod 16)) EmptyString)
  else String c EmptyString.

Fixpoint escape (s : string) : string :=
  match s with
  | EmptyString => EmptyString
  | String c rest => escape_char c ++ escape rest
  end.

(** A JSON string literal. *)
Definition quote (s : string) : string :=
  String dquote (escape s ++ String dquote EmptyString).

#[local] Set Warnings "-register-all".

Section Adapter.

(** The numbers of a JSON document and the text [JSON.stringify] writes for
    one. *)
Variable number : Type.
Variable Number_toString : number -> string.

(** ** JSON values *)

(** What [JSON.parse] returns.  The properties of an object are listed in
    the order in which the object enumerates them; a parsed object has
    every key once. *)
Inductive json : Type :=
| JNull
| JBool (b : bool)
| JNum (n : number)
| JStr (s : string)
| JArr (items : list json)
| JObj (props : list (string * json)).

(** A value that may be [undefined]. *)
Definition value : Type := option json.
Definition undefined : value := None.

(** The own property [key] of an object. *)
Fixpoint own_property (key : string) (props : list (string * json)) : value :=
  match props with
  | [] => undefined
  | (k, v) :: rest => if String.eqb key k then Some v else own_property key rest
  end.

(** [JSON.stringify(v)]. *)
Fixpoint JSON_stringify (v : json) : string :=
  match v with
  | JNull => "null"
  | JBool true => "true"
  | JBool false => "false"
  | JNum n => Number_toString n
  | JStr s => quote s
  | JArr items => "[" ++ String.concat "," (map JSON_stringify items) ++ "]"
  | JObj props =>
      "{" ++ String.concat ","
               (map (fun p => quote (fst p) ++ ":" ++ JSON_stringify (snd p)) props)
          ++ "}"
  end.

(** [typeof v === 'object']. *)
Definition typeof_object (v : value) : bool :=
  match v with
  | Some JNull | Some (JArr _) | Some (JObj _) => true
  | _ => false
  end.

(** [Array.isArray(v)]. *)
Definition Array_isArray (v : value) : bool :=
  match v with
  | Some (JArr _) => true
  | _ => false
  end.

(** [v.key] for a [key] that no built-in prototype defines (here
    [embeddings] and [float]): reading a property of [null] or [undefined]
    throws, an object gives its own property, anything else gives
    [undefined]. *)
Definition get_named (v : value) (key : string) : JsError + value :=
  match v with
  | None =>
      inl (TypeError ("Cannot read properties of undefined (reading '" ++ key ++ "')"))
  | Some JNull =>
      inl (TypeError ("Cannot read properties of null (reading '" ++ key ++ "')"))
  | Some (JObj props) => inr (own_property key props)
  | Some _ => inr undefined
  end.

(** ['float' in v]: the operator throws unless [v] is an object; an array
    has no such key. *)
Definition in_float (v : value) : JsError + bool :=
  match v with
  | Some (JObj props) =>
      inr (match own_property "float" props with Some _ => true | None => false end)
  | Some (JArr _) => inr false
  | Some JNull =>
      inl (TypeError "Cannot use 'in' operator to search for 'float' in null")
  | _ =>
      inl (TypeError "Cannot use 'in' operator to search for 'float' in a primitive")
  end.

(** [v[0]].  (A string is indexed by character, a character being a byte:
    exact for ASCII text.  The messages of the exceptions are those of one
    engine; only their class is relied on.) *)
Definition get_index0 (v : value) : JsError + value :=
  match v with
  | None => inl (TypeError "Cannot read properties of undefined (reading '0')")
  | Some JNull => inl (TypeError "Cannot read properties of null (reading '0')")
  | Some (JArr items) => inr (hd_error items)
  | Some (JStr s) => inr (option_map JStr (hd_error (characters s)))
  | Some (JObj props) => inr (own_property "0" props)
  | Some _ => inr undefined
  end.

(** The elements [...v] spreads into an argument list: those of an array,
    the characters of a string (a character being a byte: exact for ASCII
    text); anything else is not iterable.  (The message of the exception is
    that of one engine for a value without an iterator, and stands for the
    engine's message in every case; only its class is relied on.) *)
Definition spread (v : value) : JsError + list json :=
  match v with
  | Some (JArr items) => inr items
  | Some (JStr s) => inr (map JStr (characters s))
  | _ => inl (TypeError "Spread syntax requires ...iterable[Symbol.iterator] to be a function")
  end.

(** ** extractEmbeddings *)

Definition unexpected_format (response : json) : JsError :=
  Error ("Unexpected Cohere response format: " ++ JSON_stringify response).

Definition extractEmbeddings (response : json) : JsError + value :=
  match get_named (Some response) "embeddings" with
  | inl e => inl e
  | inr embeddings =>
      (* the v3 branch and the final throw *)
      let otherwise :=
        if Array_isArray embeddings then inr embeddings
        else inl (unexpected_format response) in
      if typeof_object embeddings then
        if negb (Array_isArray embeddings) then
          match in_float embeddings with
          | inl e => inl e
          | inr true => get_named embeddings "float"
          | inr false => otherwise
          end
        else otherwise
      else otherwise
  end.


(** ** batchTexts *)

(** How [Array.prototype.slice] resolves a relative index against the
    length: a negative index counts from the end, and the result is clamped
    to [0 .. len]. *)
Definition relative_index (len rel : Z) : Z :=
  if rel <? 0 then Z.max (len + rel) 0 else Z.min rel len.

(** [texts.slice(start, stop)]. *)
Definition slice {T : Type} (texts : list T) (start stop : Z) : list T :=
  let len := Z.of_nat (List.length texts) in
  let k := relative_index len start in
  let final := relative_index len stop in
  firstn (Z.to_nat (final - k)) (skipn (Z.to_nat k) texts).

(** The [for] loop of [batchTexts], entered at index [i] with the batches
    pushed so far.  [fuel] bounds the number of iterations; [None] is a loop
    that is still running when the fuel is spent. *)
Fixpoint batchTexts_loop {T : Type} (fuel : nat) (size : Z) (texts : list T)
    (i : Z) (batches : list (list T)) : option (list (list T)) :=
  if i <? Z.of_nat (List.length texts) then
    match fuel with
    | O => None
    | S fuel' =>
        batchTexts_loop fuel' size texts (i + size)
          (batches ++ [slice texts i (i + size)])%list
    end
  else Some batches.

(** [this.batchTexts(texts)]. *)
Definition batchTexts {T : Type} (fuel : nat) (this : CohereBedrockEmbeddings)
    (texts : list T) : option (list (list T)) :=
  batchTexts_loop fuel (batchSize this) texts 0 [].

(** ** Effects: the trace of remote traffic *)

(** What the adapter does that is visible outside it. *)
Inductive event : Type :=
| EvCall                           (* [this.caller.call] is entered *)
| EvSend (command : InvokeModelCommand).  (* [this.client.send(command)] *)

Definition trace : Type := list event.

(** A computation that may throw, and that extends the trace. *)
Definition M (A : Type) : Type := trace -> (JsError + A) * trace.

Definition ret {A : Type} (a : A) : M A := fun tr => (inr a, tr).

Definition throw {A : Type} (e : JsError) : M A := fun tr => (inl e, tr).

Definition bind {A B : Type} (m : M A) (k : A -> M B) : M B :=
  fun tr =>
    match m tr with
    | (inl e, tr') => (inl e, tr')
    | (inr a, tr') => k a tr'
    end.

Notation "x <- m ;; k" := (bind m (fun x => k))
  (at level 61, m at next level, right associativity).

(** A pure step that may throw. *)
Definition lift {A : Type} (r : JsError + A) : M A := fun tr => (r, tr).

(** The remote side: [this.client.send(command)] followed by the decoding
    and [JSON.parse] of the response body.  It answers a command, knowing
    the trace so far, with the parsed response or with the exception that
    surfaces. *)
Variable remote : trace -> InvokeModelCommand -> JsError + json.

Definition client_send (command : InvokeModelCommand) : M json :=
  fun tr => (remote tr command, (tr ++ [EvSend command])%list).

(** ** invokeCohere *)

(** The [requestBody] object. *)
Definition requestBody (this : CohereBedrockEmbeddings) (texts : list string)
    (inputType : CohereInputType) : json :=
  let cleanedTexts := map replace_newlines texts in
  JObj [ ("texts", JArr (map JStr cleanedTexts));
         ("input_type", JStr (CohereInputType_value inputType));
         ("truncate", JStr (CohereTruncate_value (truncate this))) ].

(** The [InvokeModelCommand] built from it. *)
Definition command_of (this : CohereBedrockEmbeddings) (texts : list string)
    (inputType : CohereInputType) : InvokeModelCommand :=
  {| modelId := model this;
     body := JSON_stringify (requestBody this texts inputType);
     contentType := "application/json";
     accept := "application/json" |}.

Definition invokeCohere (this : CohereBedrockEmbeddings) (texts : list string)
    (inputType : CohereInputType) : M value :=
  parsed <- client_send (command_of this texts inputType) ;;
  lift (extractEmbeddings parsed).

(** ** The retry wrapper *)

(** Modelled from the spec: [this.caller.call], the bounded-retry wrapper of
    the base class, whose code is outside the repository.  It runs the
    operation and, when the operation throws, runs it again until it
    succeeds or [retries] further attempts are spent; the last exception is
    the one raised. *)
Fixpoint attempt {A : Type} (retries : nat) (operation : M A) : M A :=
  fun tr =>
    match operation tr with
    | (inr a, tr') => (inr a, tr')
    | (inl e, tr') =>
        match retries with
        | O => (inl e, tr')
        | S retries' => attempt retries' operation tr'
        end
    end.

(** Modelled from the spec: one call of that wrapper, [this.caller.call],
    with the retry budget of the adapter. *)
Definition caller_call {A : Type} (this : CohereBedrockEmbeddings)
    (operation : M A) : M A :=
  fun tr => attempt (maxRetries this) operation (tr ++ [EvCall])%list.

(** ** embedDocuments and embedQuery *)

(** The [for (const batch of batches)] loop, with [allEmbeddings] as
    accumulated so far. *)
Fixpoint embed_batches (this : CohereBedrockEmbeddings)
    (batches : list (list string)) (allEmbeddings : list json) : M (list json) :=
  match batches with
  | [] => ret allEmbeddings
  | batch :: rest =>
      embeddings <- caller_call this
                      (invokeCohere this batch (inputTypeDocument this)) ;;
      pushed <- lift (spread embeddings) ;;
      embed_batches this rest (allEmbeddings ++ pushed)%list
  end.

(** [this.embedDocuments(documents)]; [None] when the batching loop is still
    running after [fuel] iterations. *)
Definition embedDocuments (fuel : nat) (this : CohereBedrockEmbeddings)
    (documents : list string) (tr : trace)
  : option ((JsError + list json) * trace) :=
  if Z.of_nat (List.length documents) =? 0 then Some (inr [], tr)
  else
    match batchTexts fuel this documents with
    | None => None
    | Some batches => Some (embed_batches this batches [] tr)
    end.

(** [this.embedQuery(query)]. *)
Definition embedQuery (this : CohereBedrockEmbeddings) (query : string)
  : M value :=
  embeddings <- caller_call this
                  (invokeCohere this [query] (inputTypeQuery this)) ;;
  lift (get_index0 embeddings).

End Adapter.

Arguments JNull {number}.
Arguments JBool {number} b.
Arguments JNum {number} n.
Arguments JStr {number} s.
Arguments JArr {number} items.
Arguments JObj {number} props.
Arguments undefined {number}.
Arguments own_property {number} key props.
Arguments JSON_stringify {number} Number_toString v.
Arguments typeof_object {number} v.
Arguments Array_isArray {number} v.
Arguments get_named {number} v key.
Arguments in_float {number} v.
Arguments get_index0 {number} v.
Arguments spread {number} v.
Arguments unexpected_format {number} Number_toString response.
Arguments extractEmbeddings {number} Number_toString response.
Arguments client_send {number} remote command tr.
Arguments requestBody {number} this texts inputType.
Arguments command_of {number} Number_toString this texts inputType.
Arguments invokeCohere {number} Number_toString remote this texts inputType tr.
Arguments embed_batches {number} Number_toString remote this batches allEmbeddings tr.
Arguments embedDocuments {number} Number_toString remote fuel this documents tr.
Arguments embedQuery {number} Number_toString remote this query tr.

(** ** Reading a trace *)

(** How many times [this.caller.call] was entered. *)
Definition remote_calls (tr : trace) : nat :=
  List.length (filter (fun ev => match ev with EvCall => true | EvSend _ => false end) tr).

(** The commands that went to the network, in order. *)
Fixpoint sent (tr : trace) : list InvokeModelCommand :=
  match tr with
  | [] => []
  | EvCall :: rest => sent rest
  | EvSend command :: rest => command :: sent rest
  end.

(** The events of one call of the retry wrapper around [invokeCohere] that
    takes [attempts] attempts. *)
Definition call_events (command : InvokeModelCommand) (attempts : nat) : trace :=
  EvCall :: repeat (EvSend command) attempts.

(** The events of one call per batch, the call for the i-th batch taking the
    i-th number of attempts; batches beyond the attempts listed have no
    call. *)
Definition calls_events (command : list string -> InvokeModelCommand)
    (batches : list (list string)) (attempts : list nat) : trace :=
  List.concat (map (fun ba => call_events (command (fst ba)) (snd ba))
                 (combine batches attempts)).

(** One remote call for each batch, in order, as a specification of the
    loop of [embedDocuments].  [calls_in_order Number_toString remote this
    batches tr tr' stopped] holds when, from the trace [tr], the wrapped call
    [this.caller.call(() => this.invokeCohere(batch, this.inputTypeDocument))]
    is made once for each batch in turn, each call from the trace the call
    before it left, and [tr'] is the trace after the last call made: the
    calls are made for all the batches ([stopped = None]), or for the
    batches up to and including the first one whose call raises or whose
    answer cannot be spread ([stopped = Some e], [e] being the exception). *)
Inductive calls_in_order {number : Type} (Number_toString : number -> string)
    (remote : trace -> InvokeModelCommand -> JsError + json number)
    (this : CohereBedrockEmbeddings)
  : list (list string) -> trace -> trace -> option JsError -> Prop :=
| calls_done : forall tr,
    calls_in_order Number_toString remote this [] tr tr None
| calls_next : forall batch batches tr embeddings pushed tr1 tr' stopped,
    caller_call this
      (invokeCohere Number_toString remote this batch (inputTypeDocument this)) tr
    = (inr embeddings, tr1) ->
    spread embeddings = inr pushed ->
    calls_in_order Number_toString remote this batches tr1 tr' stopped ->
    calls_in_order Number_toString remote this (batch :: batches) tr tr' stopped
| calls_raised : forall batch batches tr e tr1,
    caller_call this
      (invokeCohere Number_toString remote this batch (inputTypeDocument this)) tr
    = (inl e, tr1) ->
    calls_in_order Number_toString remote this (batch :: batches) tr tr1 (Some e)
| calls_not_spread : forall batch batches tr embeddings e tr1,
    caller_call this
      (invokeCohere Number_toString remote this batch (inputTypeDocument this)) tr
    = (inr embeddings, tr1) ->
    spread embeddings = inl e ->
    calls_in_order Number_toString remote this (batch :: batches) tr tr1 (Some e).

(** The exception a result stands for, if any. *)
Definition raised {A : Type} (result : JsError + A) : option JsError :=
  match result with
  | inl e => Some e
  | inr _ => None
  end.

(** ** The batching, as a specification *)

(** The contiguous chunks of [size] elements of a list, the last one
    possibly shorter; [fuel] bounds the number of chunks. *)
Fixpoint chunks {T : Type} (fuel : nat) (size : nat) (l : list T) : list (list T) :=
  match fuel with
  | O => []
  | S fuel' =>
      match l with
      | [] => []
      | _ :: _ => firstn size l :: chunks fuel' size (skipn size l)
      end
  end.

(** [ceil(n / b)] for a positive [b]. *)
Definition ceil_div (n b : Z) : Z := (n + b - 1) / b.

(** ** Sample adapters, responses and remotes *)

Module Sample.

(** JSON numbers that are integers, written in decimal. *)
Definition show (n : Z) : string := NilZero.string_of_int (Z.to_int n).

Definition params (size : option Z) : CohereBedrockEmbeddingsParams :=
  mkParams "cohere.embed-english-v3" None None None size None.

(** The adapter constructed with a requested batch size. *)
Definition adapter (size : Z) : CohereBedrockEmbeddings :=
  constructor (params (Some size)).

Definition five : list string := ["a"; "b"; "c"; "d"; "e"].

(** A stand-in for the vector of a text. *)
Definition vector_of (text : string) : json Z :=
  JArr [JNum (Z.of_nat (String.length text)); JNum 0].

(** A response in the v3 shape and one in the v4 shape. *)
Definition v3 (texts : list string) : json Z :=
  JObj [ ("embeddings", JArr (map vector_of texts));
         ("id", JStr "r-1");
         ("texts", JArr (map JStr texts)) ].


Definition throttled : JsError :=
  mkJsError "ThrottlingException" "Too many requests".

(** A remote that serves the listed batches: it answers the command built
    for one of them with the vectors of that batch, and fails on every other
    command. *)
Definition remote_serving (this : CohereBedrockEmbeddings)
    (inputType : CohereInputType) (served : list (list string))
  : trace -> InvokeModelCommand -> JsError + json Z :=
  fun _ command =>
    match find (fun batch =>
                  String.eqb (body command)
                    (body (command_of show this batch inputType))) served with
    | Some batch => inr (v3 batch)
    | None => inl throttled
    end.

(** A remote that answers every command with the same response. *)
Definition remote_constant (response : json Z)
  : trace -> InvokeModelCommand -> JsError + json Z :=
  fun _ _ => inr response.

(** The remotes of the sample runs. *)
Definition remote_first : trace -> InvokeModelCommand -> JsError + json Z :=
  remote_serving (adapter 2) search_document [["a"; "b"]].

Definition remote_both : trace -> InvokeModelCommand -> JsError + json Z :=
  remote_serving (adapter 2) search_document [["a"; "bb"]; ["ccc"]].


Definition remote_a : trace -> InvokeModelCommand -> JsError + json Z :=
  remote_constant (v3 ["a"]).

Definition empty_response : json Z := JObj [("embeddings", JArr [])].

Definition remote_empty : trace -> InvokeModelCommand -> JsError + json Z :=
  remote_constant empty_response.

End Sample.

(** ** The host node: supplyData *)

(** The [options] collection of the node; [None] is an option that was not
    added. *)
Record NodeOptions : Type := mkNodeOptions {
  options_inputTypeDocument : option CohereInputType;
  options_inputTypeQuery : option CohereInputType;
  options_truncate : option CohereTruncate
}.

(** The node parameters [supplyData] reads with [getNodeParameter]; [None]
    is a parameter that is not set, for which the fallback is returned. *)
Record NodeParameters : Type := mkNodeParameters {
  parameter_model : string;
  parameter_useCohereFormat : option bool;
  parameter_options : option NodeOptions
}.

(** The [aws] credentials. *)
Record AwsCredentials : Type := mkAwsCredentials {
  region : string;
  secretAccessKey : string;
  accessKeyId : string;
  sessionToken : string
}.

(** The embeddings object [supplyData] builds: the Cohere adapter, or the
    generic [BedrockEmbeddings] of the library with the parameters it is
    given.  (The client both receive is the oracle [remote]; the logging
    wrapper around the object is left out.) *)
Inductive SuppliedEmbeddings : Type :=
| SuppliedCohere (embeddings : CohereBedrockEmbeddings)
| SuppliedBedrock (bedrockModel : string) (bedrockMaxRetries : nat)
    (bedrockRegion : string).

(** [supplyData]: the choice and the construction of the embeddings
    object. *)
Definition supplyData (credentials : AwsCredentials)
    (parameters : NodeParameters) : SuppliedEmbeddings :=
  let modelName := parameter_model parameters in
  let useCohereFormat := parameter_useCohereFormat parameters ?? true in
  if useCohereFormat then
    let options := parameter_options parameters ?? mkNodeOptions None None None in
    SuppliedCohere
      (constructor
         {| params_model := modelName;
            params_inputTypeDocument :=
              Some (options_inputTypeDocument options ?? search_document);
            params_inputTypeQuery :=
              Some (options_inputTypeQuery options ?? search_query);
            params_truncate := Some (options_truncate options ?? END_);
            params_batchSize := None;
            params_maxRetries := Some 3%nat |})
  else SuppliedBedrock modelName 3 (region credentials).

(** ** Reading strings *)

(** Every character of a string passes the test. *)
Fixpoint string_forall (test : ascii -> bool) (s : string) : bool :=
  match s with
  | EmptyString => true
  | String c rest => test c && string_forall test rest
  end.

(** A character that is not a control character. *)
Definition not_control (c : ascii) : bool := Nat.leb 32 (nat_of_ascii c).

(** ** Reading a string literal back *)

(** The value of a lower-case hexadecimal digit. *)
Definition hex_value (c : ascii) : option nat :=
  let n := nat_of_ascii c in
  if Nat.leb 48 n && Nat.leb n 57 then Some (n - 48)%nat
  else if Nat.leb 97 n && Nat.leb n 102 then Some (n - 87)%nat
  else None.

Definition prepend (c : ascii) (r : option (string * string))
  : option (string * string) :=
  match r with
  | Some (s, rest) => Some (String c s, rest)
  | None => None
  end.

(** The inverse of [escape]: reads the inside of a string literal up to its
    closing quote and returns the string it stands for together with what
    follows the quote.  It is no part of the adapter; it serves to show that
    a request body can be read back. *)
Fixpoint read_literal (s : string) : option (string * string) :=
  match s with
  | EmptyString => None
  | String c rest =>
      if Ascii.eqb c dquote then Some (EmptyString, rest)
      else if Ascii.eqb c backslash then
        match rest with
        | EmptyString => None
        | String d rest' =>
            if Ascii.eqb d "b" then prepend (ascii_of_nat 8) (read_literal rest')
            else if Ascii.eqb d "t" then prepend (ascii_of_nat 9) (read_literal rest')
            else if Ascii.eqb d "n" then prepend (ascii_of_nat 10) (read_literal rest')
            else if Ascii.eqb d "f" then prepend (ascii_of_nat 12) (read_literal rest')
            else if Ascii.eqb d "r" then prepend (ascii_of_nat 13) (read_literal rest')
            else if Ascii.eqb d dquote then prepend dquote (read_literal rest')
            else if Ascii.eqb d backslash then prepend backslash (read_literal rest')
            else if Ascii.eqb d "u" then
              match rest' with
              | String z1 (String z2 (String h1 (String h2 rest''))) =>
                  if Ascii.eqb z1 "0" && Ascii.eqb z2 "0" then
                    match hex_value h1, hex_value h2 with
                    | Some high, Some low =>
                        prepend (ascii_of_nat (16 * high + low))
                          (read_literal rest'')
                    | _, _ => None
                    end
                  else None
              | _ => None
              end
            else None
        end
      else prepend c (read_literal rest)
  end.

(** The fixed pieces of a request body, between which the texts, the
    input-type and the truncation policy are written. *)
Definition body_opening : string := "{" ++ quote "texts" ++ ":[".
Definition body_input_type : string := "," ++ quote "input_type" ++ ":".
Definition body_truncate : string := "," ++ quote "truncate" ++ ":".

(** ** More sample remotes *)

Module MoreSamples.

(** Two vectors, whatever is asked. *)
Definition pair : list (json Z) := [Sample.vector_of "x"; Sample.vector_of "yy"].

Definition remote_pair : trace -> InvokeModelCommand -> JsError + json Z :=
  Sample.remote_constant (JObj [("embeddings", JArr pair)]).

(** A v4 response whose [float] is a number. *)
Definition remote_number : trace -> InvokeModelCommand -> JsError + json Z :=
  Sample.remote_constant (JObj [("embeddings", JObj [("float", JNum 5)])]).

Definition credentials : AwsCredentials :=
  mkAwsCredentials "us-east-1" "secret" "key" "token".

End MoreSamples.

(** * Properties *)

#[local] Open Scope list_scope.

(** ** The constructor *)

Lemma constructor_batchSize_le params : batchSize (constructor params) <= 96.
Proof. unfold constructor; simpl. lia. Qed.

(** ** Batching *)

Section Batching.

Context {T : Type}.
Implicit Types (texts l : list T) (size i : Z) (n fuel : nat).

Lemma ceil_div_small len b : 0 < len <= b -> ceil_div len b = 1.
Proof.
  intros H. unfold ceil_div.
  symmetry. apply (Z.div_unique_pos _ _ 1 (len - 1)); lia.
Qed.

Lemma ceil_div_zero b : 0 < b -> ceil_div 0 b = 0.
Proof. intros H. unfold ceil_div. apply Z.div_small. lia. Qed.

Lemma ceil_div_step len b : 0 < b -> ceil_div (len + b) b = ceil_div len b + 1.
Proof.
  intros H. unfold ceil_div.
  replace (len + b + b - 1) with ((len + b - 1) + 1 * b) by lia.
  apply Z.div_add. lia.
Qed.

(** [ceil_div n b] is the ceiling of [n / b]. *)
Lemma ceil_div_spec len b :
  0 < b -> b * (ceil_div len b - 1) < len <= b * ceil_div len b.
Proof.
  intros Hb. unfold ceil_div.
  pose proof (Z.div_mod (len + b - 1) b ltac:(lia)) as Hdiv.
  pose proof (Z.mod_pos_bound (len + b - 1) b Hb) as Hmod.
  lia.
Qed.

(** Inside the list and with a positive size, [slice] takes the next [size]
    elements (or what is left of them). *)
Lemma slice_next texts i size :
  1 <= size -> 0 <= i < Z.of_nat (List.length texts) ->
  slice texts i (i + size) = firstn (Z.to_nat size) (skipn (Z.to_nat i) texts).
Proof.
  intros Hs Hi. unfold slice, relative_index.
  destruct (Z.ltb_spec i 0) as [?|_]; [lia|].
  destruct (Z.ltb_spec (i + size) 0) as [?|_]; [lia|].
  rewrite (Z.min_l i) by lia.
  assert (Hlen : List.length (skipn (Z.to_nat i) texts)
                 = (List.length texts - Z.to_nat i)%nat) by apply length_skipn.
  destruct (Z.le_gt_cases (i + size) (Z.of_nat (List.length texts))) as [Hle|Hgt].
  - rewrite Z.min_l by lia. f_equal. lia.
  - rewrite Z.min_r by lia.
    rewrite !firstn_all2; [reflexivity | lia | lia].
Qed.

Lemma chunks_nil fuel n : chunks fuel n (@nil T) = [].
Proof. destruct fuel; reflexivity. Qed.

(** The loop of [batchTexts] computes [chunks] (refinement): with a positive
    size and fuel for what is left of the list, it appends the chunks of the
    rest to the batches it was entered with. *)
Lemma batchTexts_loop_chunks fuel : forall size texts i batches,
  1 <= size -> 0 <= i ->
  (List.length (skipn (Z.to_nat i) texts) <= fuel)%nat ->
  batchTexts_loop fuel size texts i batches
  = Some (batches ++ chunks fuel (Z.to_nat size) (skipn (Z.to_nat i) texts))%list.
Proof.
  induction fuel as [|fuel IH]; intros size texts i batches Hs Hi Hfuel;
    pose proof (length_skipn (Z.to_nat i) texts) as Hlen.
  - simpl. destruct (Z.ltb_spec i (Z.of_nat (List.length texts))) as [?|_]; [lia|].
    now rewrite app_nil_r.
  - cbn [batchTexts_loop].
    destruct (Z.ltb_spec i (Z.of_nat (List.length texts))) as [Hlt|Hge].
    + rewrite IH by (try lia; rewrite length_skipn; lia).
      rewrite slice_next by lia.
      replace (Z.to_nat (i + size)) with (Z.to_nat size + Z.to_nat i)%nat by lia.
      rewrite <- skipn_skipn.
      destruct (skipn (Z.to_nat i) texts) as [|x rest] eqn:E.
      * simpl in Hlen. lia.
      * cbn [chunks]. now rewrite <- app_assoc.
    + replace (skipn (Z.to_nat i) texts) with (@nil T).
      * now rewrite chunks_nil, app_nil_r.
      * symmetry. apply skipn_all2. lia.
Qed.

(** For a positive batch size, [batchTexts] returns the chunks of its
    input once the fuel covers the length of the input. *)
Lemma batchTexts_chunks fuel this texts :
  1 <= batchSize this -> (List.length texts <= fuel)%nat ->
  batchTexts fuel this texts = Some (chunks fuel (Z.to_nat (batchSize this)) texts).
Proof.
  intros Hs Hfuel. unfold batchTexts.
  rewrite batchTexts_loop_chunks by (simpl; lia). reflexivity.
Qed.

(** Once inside the loop with a size that is not positive, the loop never
    leaves: the index does not move forward. *)
Lemma batchTexts_loop_stuck fuel : forall size texts i batches,
  size <= 0 -> i < Z.of_nat (List.length texts) ->
  batchTexts_loop fuel size texts i batches = None.
Proof.
  induction fuel as [|fuel IH]; intros size texts i batches Hs Hi; cbn [batchTexts_loop];
    destruct (Z.ltb_spec i (Z.of_nat (List.length texts))) as [_|?]; try lia.
  - reflexivity.
  - apply IH; lia.
Qed.

Lemma batchTexts_empty fuel this : batchTexts fuel this (@nil T) = Some [].
Proof. destruct fuel; reflexivity. Qed.

Lemma concat_chunks fuel : forall n l,
  (1 <= n)%nat -> (List.length l <= fuel)%nat -> List.concat (chunks fuel n l) = l.
Proof.
  induction fuel as [|fuel IH]; intros n l Hn Hfuel.
  - destruct l; [reflexivity | simpl in Hfuel; lia].
  - destruct l as [|x l]; [reflexivity|].
    cbn [chunks List.concat]. rewrite IH; [apply firstn_skipn | assumption |].
    rewrite length_skipn. cbn [List.length] in *. lia.
Qed.

Lemma chunks_bounds fuel : forall n l,
  (1 <= n)%nat ->
  Forall (fun chunk => (1 <= List.length chunk <= n)%nat) (chunks fuel n l).
Proof.
  induction fuel as [|fuel IH]; intros n l Hn; [constructor|].
  destruct l as [|x l]; [constructor|].
  cbn [chunks]. constructor; [|apply IH; assumption].
  rewrite length_firstn. simpl. lia.
Qed.

Lemma chunks_nth fuel : forall n l k,
  (k < List.length (chunks fuel n l))%nat ->
  nth k (chunks fuel n l) [] = firstn n (skipn (k * n) l).
Proof.
  induction fuel as [|fuel IH]; intros n l k Hk; [simpl in Hk; lia|].
  destruct l as [|x l]; [simpl in Hk; lia|].
  cbn [chunks] in *. destruct k as [|k].
  - reflexivity.
  - cbn [nth]. rewrite IH by (simpl in Hk; lia).
    rewrite skipn_skipn. do 2 f_equal. lia.
Qed.

(** Every chunk but the last is full. *)
Lemma chunks_full fuel : forall n l k,
  (S k < List.length (chunks fuel n l))%nat ->
  List.length (nth k (chunks fuel n l) []) = n.
Proof.
  induction fuel as [|fuel IH]; intros n l k Hk; [simpl in Hk; lia|].
  destruct l as [|x l]; [simpl in Hk; lia|].
  cbn [chunks] in *. destruct k as [|k].
  - cbn [nth]. rewrite length_firstn.
    destruct (chunks fuel n (skipn n (x :: l))) as [|c cs] eqn:E; [simpl in Hk; lia|].
    destruct (Nat.le_gt_cases n (List.length (x :: l))) as [?|Hshort]; [lia|].
    rewrite skipn_all2 in E by lia. rewrite chunks_nil in E. discriminate.
  - cbn [nth]. apply IH. simpl in Hk. lia.
Qed.

Lemma chunks_count fuel : forall n l,
  (1 <= n)%nat -> (List.length l <= fuel)%nat ->
  Z.of_nat (List.length (chunks fuel n l))
  = ceil_div (Z.of_nat (List.length l)) (Z.of_nat n).
Proof.
  induction fuel as [|fuel IH]; intros n l Hn Hfuel.
  - destruct l; [|simpl in Hfuel; lia]. simpl. now rewrite ceil_div_zero by lia.
  - destruct l as [|x l]; [simpl; now rewrite ceil_div_zero by lia|].
    cbn [chunks].
    change (Z.of_nat (S (List.length (chunks fuel n (skipn n (x :: l)))))
            = ceil_div (Z.of_nat (List.length (x :: l))) (Z.of_nat n)).
    rewrite Nat2Z.inj_succ, IH;
      [| assumption | rewrite length_skipn; cbn [List.length] in *; lia].
    rewrite length_skipn.
    destruct (Nat.le_gt_cases (List.length (x :: l)) n) as [Hshort|Hlong].
    + replace (List.length (x :: l) - n)%nat with 0%nat by lia.
      rewrite ceil_div_zero, ceil_div_small by (cbn [List.length] in *; lia). reflexivity.
    + replace (Z.of_nat (List.length (x :: l)))
        with (Z.of_nat (List.length (x :: l) - n) + Z.of_nat n) by lia.
      rewrite ceil_div_step by lia. lia.
Qed.

End Batching.

(** ** Traces *)

Lemma remote_calls_app tr1 tr2 :
  remote_calls (tr1 ++ tr2) = (remote_calls tr1 + remote_calls tr2)%nat.
Proof. unfold remote_calls. now rewrite filter_app, length_app. Qed.

Lemma remote_calls_repeat_send command k :
  remote_calls (repeat (EvSend command) k) = 0%nat.
Proof. induction k as [|k IH]; [reflexivity | exact IH]. Qed.

Lemma remote_calls_call_events command k :
  remote_calls (call_events command k) = 1%nat.
Proof.
  unfold call_events.
  change (remote_calls (EvCall :: ?t)) with (S (remote_calls t)).
  now rewrite remote_calls_repeat_send.
Qed.

Lemma calls_events_cons command batch batches k attempts :
  calls_events command (batch :: batches) (k :: attempts)
  = (call_events (command batch) k ++ calls_events command batches attempts)%list.
Proof. reflexivity. Qed.

Lemma calls_events_snoc command : forall batches attempts batch k,
  List.length attempts = List.length batches ->
  calls_events command (batches ++ batch :: nil) (attempts ++ k :: nil)
  = (calls_events command batches attempts ++ call_events (command batch) k)%list.
Proof.
  induction batches as [|b batches IH]; intros [|a attempts] batch k Hlen;
    try discriminate.
  - unfold calls_events. simpl. now rewrite app_nil_r.
  - simpl app. rewrite !calls_events_cons, IH by (simpl in Hlen; lia).
    now rewrite app_assoc.
Qed.

(** One call is recorded for every batch that has an attempt count. *)
Lemma remote_calls_calls_events command : forall batches attempts,
  (List.length attempts <= List.length batches)%nat ->
  remote_calls (calls_events command batches attempts) = List.length attempts.
Proof.
  induction batches as [|b batches IH]; intros [|a attempts] Hlen;
    try reflexivity; [simpl in Hlen; lia|].
  rewrite calls_events_cons, remote_calls_app, remote_calls_call_events.
  rewrite IH by (simpl in Hlen; lia). reflexivity.
Qed.

Section Runs.

Variable number : Type.
Variable Number_toString : number -> string.
Variable remote : trace -> InvokeModelCommand -> JsError + json number.

Implicit Types (this : CohereBedrockEmbeddings) (tr : trace)
  (batch : list string) (batches : list (list string)).

(** ** One remote call *)

(** [invokeCohere] sends one command and hands the parsed response to
    [extractEmbeddings]. *)
Lemma invokeCohere_run this texts inputType tr :
  invokeCohere Number_toString remote this texts inputType tr
  = (match remote tr (command_of Number_toString this texts inputType) with
     | inl e => inl e
     | inr parsed => extractEmbeddings Number_toString parsed
     end,
     (tr ++ [EvSend (command_of Number_toString this texts inputType)])%list).
Proof.
  unfold invokeCohere, bind, client_send, lift.
  destruct (remote tr _); reflexivity.
Qed.

(** The attempts of the retry wrapper around [invokeCohere] all send the
    same command; a failure has used every attempt. *)
Lemma attempt_invokeCohere this texts inputType retries : forall tr r tr',
  attempt retries (invokeCohere Number_toString remote this texts inputType) tr = (r, tr') ->
  exists k, (1 <= k <= S retries)%nat
    /\ tr' = (tr ++ repeat (EvSend (command_of Number_toString this texts inputType)) k)%list
    /\ (forall e, r = inl e -> k = S retries).
Proof.
  induction retries as [|retries IH]; intros tr r tr' H; cbn [attempt] in H;
    rewrite invokeCohere_run in H;
    destruct (match remote tr _ with inl e => inl e | inr p => _ end) as [e|v].
  - inversion H; subst. exists 1%nat.
    split; [lia | split; [reflexivity | reflexivity]].
  - inversion H; subst. exists 1%nat.
    split; [lia | split; [reflexivity | discriminate]].
  - apply IH in H as (k & Hk & -> & Hfail).
    exists (S k). split; [lia | split].
    + rewrite <- app_assoc. reflexivity.
    + intros e' He. now rewrite (Hfail e' He).
  - inversion H; subst. exists 1%nat.
    split; [lia | split; [reflexivity | discriminate]].
Qed.

Lemma caller_call_invokeCohere this texts inputType tr r tr' :
  caller_call this (invokeCohere Number_toString remote this texts inputType) tr = (r, tr') ->
  exists k, (1 <= k <= S (maxRetries this))%nat
    /\ tr' = (tr ++ call_events (command_of Number_toString this texts inputType) k)%list
    /\ (forall e, r = inl e -> k = S (maxRetries this)).
Proof.
  unfold caller_call. intros H.
  apply attempt_invokeCohere in H as (k & Hk & -> & Hfail).
  exists k. split; [lia | split; [|assumption]].
  unfold call_events. rewrite <- app_assoc. reflexivity.
Qed.

(** ** The loop over the batches *)

Lemma embed_batches_app this before : forall after allEmbeddings tr,
  embed_batches Number_toString remote this (before ++ after) allEmbeddings tr
  = match embed_batches Number_toString remote this before allEmbeddings tr with
    | (inl e, tr1) => (inl e, tr1)
    | (inr vectors, tr1) => embed_batches Number_toString remote this after vectors tr1
    end.
Proof.
  induction before as [|batch before IH]; intros after allEmbeddings tr.
  - reflexivity.
  - cbn [app embed_batches]. unfold bind, lift.
    destruct (caller_call this _ tr) as [[e|embeddings] tr1]; [reflexivity|].
    destruct (spread embeddings) as [e|pushed]; [reflexivity|].
    apply IH.
Qed.

(** The calls of a run of the loop: one for each batch of a prefix of the
    batches, in order; all the batches when the loop completes. *)
Lemma embed_batches_trace this : forall batches allEmbeddings tr r tr',
  embed_batches Number_toString remote this batches allEmbeddings tr = (r, tr') ->
  exists attempts,
    (List.length attempts <= List.length batches)%nat
    /\ Forall (fun k => (1 <= k <= S (maxRetries this))%nat) attempts
    /\ tr' = (tr ++ calls_events
                      (fun batch => command_of Number_toString this batch (inputTypeDocument this))
                      batches attempts)%list
    /\ (forall vectors, r = inr vectors -> List.length attempts = List.length batches).
Proof.
  induction batches as [|batch batches IH]; intros allEmbeddings tr r tr' H.
  - inversion H; subst. exists [].
    split; [simpl; lia | split; [constructor | split; [|reflexivity]]].
    unfold calls_events. simpl. now rewrite app_nil_r.
  - cbn [embed_batches] in H. unfold bind, lift in H.
    destruct (caller_call this _ tr) as [[e|embeddings] tr1] eqn:Hcall;
      apply caller_call_invokeCohere in Hcall as (k & Hk & -> & _).
    + inversion H; subst. exists [k]. split; [simpl; lia | split; [|split]].
      * constructor; [lia | constructor].
      * destruct batches; unfold calls_events; simpl; now rewrite app_nil_r.
      * discriminate.
    + destruct (spread embeddings) as [e|pushed].
      * inversion H; subst. exists [k]. split; [simpl; lia | split; [|split]].
        -- constructor; [lia | constructor].
        -- destruct batches; unfold calls_events; simpl; now rewrite app_nil_r.
        -- discriminate.
      * apply IH in H as (attempts & Hlen & Hall & -> & Hok).
        exists (k :: attempts). split; [simpl; lia | split; [|split]].
        -- constructor; [lia | assumption].
        -- rewrite calls_events_cons, <- app_assoc. reflexivity.
        -- intros vectors Hr. simpl. now rewrite (Hok vectors Hr).
Qed.

(** The loop makes one call for each batch in order, until one fails. *)
Lemma embed_batches_calls_in_order this : forall batches allEmbeddings tr r tr',
  embed_batches Number_toString remote this batches allEmbeddings tr = (r, tr') ->
  calls_in_order Number_toString remote this batches tr tr' (raised r).
Proof.
  induction batches as [|batch batches IH]; intros allEmbeddings tr r tr' H.
  - inversion H; subst. constructor.
  - cbn [embed_batches] in H. unfold bind, lift in H.
    destruct (caller_call this _ tr) as [[e|embeddings] tr1] eqn:Hcall.
    + inversion H; subst. now apply calls_raised.
    + destruct (spread embeddings) as [e|pushed] eqn:Hspread.
      * inversion H; subst. now apply calls_not_spread with (embeddings := embeddings).
      * apply IH in H. now apply calls_next with embeddings pushed tr1.
Qed.

(** The specification leaves no choice: from a trace, the calls made, the
    trace reached and the exception, if any, are determined. *)
Lemma calls_in_order_unique this batches tr tr1 tr2 stopped1 stopped2 :
  calls_in_order Number_toString remote this batches tr tr1 stopped1 ->
  calls_in_order Number_toString remote this batches tr tr2 stopped2 ->
  tr1 = tr2 /\ stopped1 = stopped2.
Proof.
  intros H1. revert tr2 stopped2.
  induction H1 as [tr | batch batches tr embeddings pushed tr1 tr' stopped Hcall Hspread _ IH
                   | batch batches tr e tr1 Hcall
                   | batch batches tr embeddings e tr1 Hcall Hspread];
    intros tr2 stopped2 H2; inversion H2; subst;
    try (split; reflexivity); try congruence.
  - apply IH. congruence.
  - split; congruence.
  - split; congruence.
Qed.

(** When every call answers with one vector per string of its batch, the
    loop completes with one vector per string, in order. *)
Lemma embed_batches_vectors this (corresponds : string -> json number -> Prop) :
  forall batches,
  (forall batch tr0, In batch batches ->
     exists vectors tr1,
       caller_call this
         (invokeCohere Number_toString remote this batch (inputTypeDocument this)) tr0
       = (inr (Some (JArr vectors)), tr1)
       /\ Forall2 corresponds batch vectors) ->
  forall allEmbeddings tr,
  exists vectors tr',
    embed_batches Number_toString remote this batches allEmbeddings tr
    = (inr (allEmbeddings ++ vectors)%list, tr')
    /\ Forall2 corresponds (List.concat batches) vectors.
Proof.
  induction batches as [|batch batches IH]; intros Hremote allEmbeddings tr.
  - exists [], tr. split; [|constructor]. simpl. unfold ret. now rewrite app_nil_r.
  - destruct (Hremote batch tr (or_introl eq_refl)) as (vs & tr1 & Hcall & Hvs).
    destruct (IH (fun b tr0 Hin => Hremote b tr0 (or_intror Hin))
                 (allEmbeddings ++ vs)%list tr1) as (rest & tr' & Hrun & Hrest).
    exists (vs ++ rest)%list, tr'. split.
    + cbn [embed_batches]. unfold bind, lift. rewrite Hcall.
      cbn [spread]. rewrite Hrun, app_assoc. reflexivity.
    + cbn [List.concat]. now apply Forall2_app.
Qed.

(** ** Response-schema normalisation *)

(** Whatever [embeddings] is, other than [null]: the [float] member of an
    object that has one, an array as it is, and the format error carrying
    the serialized response otherwise. *)
Lemma extractEmbeddings_normalizes response embeddings :
  get_named (Some response) "embeddings" = inr embeddings ->
  embeddings <> Some JNull ->
  extractEmbeddings Number_toString response
  = match embeddings with
    | Some (JObj props) =>
        match own_property "float" props with
        | Some vectors => inr (Some vectors)
        | None => inl (unexpected_format Number_toString response)
        end
    | Some (JArr items) => inr (Some (JArr items))
    | _ => inl (unexpected_format Number_toString response)
    end.
Proof.
  intros Hget Hnull. unfold extractEmbeddings. rewrite Hget.
  destruct embeddings as [[| b | n | s | items | props]|]; try reflexivity.
  - congruence.
  - cbn. destruct (own_property "float" props); reflexivity.
Qed.

(** C1 (the code falls short of it): [extractEmbeddings] is to raise the
    format error that carries the serialized response for every shape of
    [embeddings] that is neither an array nor an object with a [float] key.
    For the response [{embeddings: null}] it raises a [TypeError] instead,
    whose message is fixed and carries nothing of the response:
    [typeof null] is ['object'], so the ['float' in ...] test is reached
    and throws. *)
Theorem extractEmbeddings_null_embeddings :
  extractEmbeddings Number_toString (JObj [("embeddings", JNull)])
  = inl (TypeError "Cannot use 'in' operator to search for 'float' in null")
  /\ extractEmbeddings Number_toString (JObj [("embeddings", JNull)])
     <> inl (unexpected_format Number_toString (JObj [("embeddings", JNull)])).
Proof.
  split; [reflexivity|]. cbn. unfold unexpected_format, TypeError, Error.
  intros H. inversion H.
Qed.

(** ** Request construction *)

Lemma string_append_assoc (a b c : string) :
  ((a ++ b) ++ c = a ++ (b ++ c))%string.
Proof. induction a as [|x a IH]; simpl; congruence. Qed.

Lemma replace_newlines_length text :
  String.length (replace_newlines text) = String.length text.
Proof. induction text as [|c text IH]; simpl; congruence. Qed.

Lemma replace_newlines_get text : forall i,
  String.get i (replace_newlines text)
  = option_map (fun c => if Ascii.eqb c newline then space else c)
      (String.get i text).
Proof.
  induction text as [|c text IH]; intros i; [reflexivity|].
  destruct i as [|i]; simpl; [reflexivity | apply IH].
Qed.

Lemma replace_newlines_clean text i :
  String.get i (replace_newlines text) <> Some newline.
Proof.
  rewrite replace_newlines_get.
  destruct (String.get i text) as [c|]; simpl; [|discriminate].
  destruct (Ascii.eqb_spec c newline) as [->|Hc]; [discriminate | congruence].
Qed.

(** C6: [invokeCohere] sends exactly one command; it is addressed to the
    configured model, and its body is the serialization of the object with
    the three members [texts], [input_type] and [truncate], where [texts]
    holds the batch with every newline character of every string replaced
    by one space (same length, every other character unchanged, no newline
    left), [input_type] the given tag and [truncate] the configured
    policy. *)
Theorem invokeCohere_request this texts inputType tr :
  let cleanedTexts := map replace_newlines texts in
  let command := command_of Number_toString this texts inputType in
  snd (invokeCohere Number_toString remote this texts inputType tr)
    = tr ++ [EvSend command]
  /\ modelId command = model this
  /\ body command
     = JSON_stringify Number_toString
         (JObj [ ("texts", JArr (map JStr cleanedTexts));
                 ("input_type", JStr (CohereInputType_value inputType));
                 ("truncate", JStr (CohereTruncate_value (truncate this))) ])
  /\ body command
     = ("{" ++ quote "texts" ++ ":[" ++ String.concat "," (map quote cleanedTexts)
        ++ "]," ++ quote "input_type" ++ ":" ++ quote (CohereInputType_value inputType)
        ++ "," ++ quote "truncate" ++ ":" ++ quote (CohereTruncate_value (truncate this))
        ++ "}")%string
  /\ Forall2
       (fun text cleaned =>
          String.length cleaned = String.length text
          /\ (forall i, String.get i cleaned
                        = option_map (fun c => if Ascii.eqb c newline then space else c)
                            (String.get i text))
          /\ (forall i, String.get i cleaned <> Some newline))
       texts cleanedTexts.
Proof.
  intros cleanedTexts command. subst cleanedTexts command.
  split; [now rewrite invokeCohere_run|].
  split; [reflexivity|].
  split; [reflexivity|].
  split.
  - unfold command_of, requestBody. cbn [body JSON_stringify map fst snd].
    rewrite map_map. cbn [JSON_stringify String.concat].
    rewrite !string_append_assoc. reflexivity.
  - induction texts as [|text rest IH]; constructor; [|exact IH].
    split; [apply replace_newlines_length|].
    split; [apply replace_newlines_get | intros i; apply replace_newlines_clean].
Qed.

(** ** The constructor's clamp *)

(** C8: the effective batch size is the minimum of the requested one and 96,
    it is 96 when none is requested, and a request for 200 gives 96. *)
Theorem constructor_batchSize_clamp m d q t r :
  (forall requested,
     batchSize (constructor (mkParams m d q t (Some requested) r))
     = Z.min requested 96)
  /\ batchSize (constructor (mkParams m d q t None r)) = 96
  /\ batchSize (constructor (mkParams m d q t (Some 200) r)) = 96.
Proof. repeat split. Qed.

(** ** Empty input *)

(** C7: on the empty list [embedDocuments] returns the empty list at once
    (no iteration of any loop is needed, whatever the batch size is) and the
    trace is as it was: no call and no request. *)
Theorem embedDocuments_empty fuel this tr :
  embedDocuments Number_toString remote fuel this [] tr = Some (inr [], tr).
Proof. reflexivity. Qed.

(** ** Termination of the batching *)

Lemma embedDocuments_batches fuel this documents tr :
  documents <> [] ->
  embedDocuments Number_toString remote fuel this documents tr
  = match batchTexts fuel this documents with
    | None => None
    | Some batches =>
        Some (embed_batches Number_toString remote this batches [] tr)
    end.
Proof.
  intros Hne. unfold embedDocuments.
  destruct documents as [|d documents]; [congruence|].
  destruct (Z.eqb_spec (Z.of_nat (List.length (d :: documents))) 0) as [H|_];
    [simpl in H; lia | reflexivity].
Qed.

(** With a batch size that is not positive, [embedDocuments] does not
    return on a non-empty input. *)
Lemma embedDocuments_stuck fuel this documents tr :
  batchSize this <= 0 -> documents <> [] ->
  embedDocuments Number_toString remote fuel this documents tr = None.
Proof.
  intros Hsize Hne. rewrite embedDocuments_batches by assumption.
  unfold batchTexts. rewrite batchTexts_loop_stuck; [reflexivity | assumption |].
  destruct documents; [congruence | simpl; lia].
Qed.

(** C9: the constructor lets a requested batch size that is not positive
    through unchanged; with such a batch size and a non-empty input the loop
    of [batchTexts], once at an index that is not positive, never ends, so
    neither [batchTexts] nor [embedDocuments] returns, whatever the fuel;
    with a batch size of at least 1 both return as soon as the fuel covers
    the length of the input. *)
Theorem batchSize_positive_needed this (documents : list string) :
  (forall m d q t r requested, requested <= 0 ->
     batchSize (constructor (mkParams m d q t (Some requested) r)) = requested)
  /\ (batchSize this <= 0 -> documents <> [] ->
      forall fuel,
        (forall i batches, i <= 0 ->
           batchTexts_loop fuel (batchSize this) documents i batches = None)
        /\ batchTexts fuel this documents = None
        /\ forall tr,
             embedDocuments Number_toString remote fuel this documents tr = None)
  /\ (1 <= batchSize this ->
      forall fuel, (List.length documents <= fuel)%nat ->
        (exists batches, batchTexts fuel this documents = Some batches)
        /\ forall tr, exists result,
             embedDocuments Number_toString remote fuel this documents tr
             = Some result).
Proof.
  split; [|split].
  - intros m d q t r requested H. cbn. lia.
  - intros Hsize Hne fuel.
    assert (Hlen : 0 < Z.of_nat (List.length documents))
      by (destruct documents; [congruence | simpl; lia]).
    assert (Hstuck : forall i batches, i <= 0 ->
              batchTexts_loop fuel (batchSize this) documents i batches = None)
      by (intros i batches Hi; apply batchTexts_loop_stuck; lia).
    split; [exact Hstuck|].
    assert (Hnone : batchTexts fuel this documents = None)
      by (apply Hstuck; lia).
    split; [exact Hnone|].
    intros tr. now apply embedDocuments_stuck.
  - intros Hsize fuel Hfuel.
    pose proof (batchTexts_chunks fuel this documents Hsize Hfuel) as Hb.
    split; [eauto|]. intros tr.
    destruct documents as [|d documents].
    + eexists. reflexivity.
    + rewrite embedDocuments_batches, Hb by discriminate. eauto.
Qed.

(** ** embedQuery on an empty vector list *)

(** C10: when the response to the query carries an empty [embeddings] array,
    in either shape, [embedQuery] returns [undefined] and raises nothing. *)
Theorem embedQuery_empty_embeddings this query tr response :
  let command := command_of Number_toString this [query] (inputTypeQuery this) in
  remote (tr ++ [EvCall]) command = inr response ->
  (get_named (Some response) "embeddings" = inr (Some (JArr []))
   \/ exists props,
        get_named (Some response) "embeddings" = inr (Some (JObj props))
        /\ own_property "float" props = Some (JArr [])) ->
  embedQuery Number_toString remote this query tr
  = (inr undefined, tr ++ [EvCall; EvSend command]).
Proof.
  intros command Hremote Hshape.
  assert (Hextract : extractEmbeddings Number_toString response
                     = inr (Some (JArr []))).
  { destruct Hshape as [Hv3 | (props & Hv4 & Hfloat)].
    - rewrite (extractEmbeddings_normalizes _ _ Hv3); [reflexivity | discriminate].
    - rewrite (extractEmbeddings_normalizes _ _ Hv4); [|discriminate].
      now rewrite Hfloat. }
  unfold embedQuery, bind, caller_call.
  destruct (maxRetries this); cbn [attempt]; rewrite invokeCohere_run;
    fold command; rewrite Hremote, Hextract; cbn; rewrite <- app_assoc; reflexivity.
Qed.

(** ** Batching *)

(** C3: with an effective batch size [B >= 1], [batchTexts] returns, for an
    input of length [N], [ceil(N / B)] chunks; each has between 1 and [B]
    elements and every one but the last has [B]; the k-th chunk is the [B]
    elements from position [k * B] on, and the chunks concatenated are the
    input.  [embedDocuments] makes one remote call for each chunk, in order
    ([calls_in_order]): it returns, having made the wrapped call once for
    each chunk in turn, for all the chunks unless a call raises or an answer
    cannot be spread, in which case that call is the last and its exception
    the result.  Each call sends the command of its chunk (once for every
    attempt), and a run that returns its vectors has called for every
    chunk, [ceil(N / B)] calls in all. *)
Theorem batchTexts_batching this :
  1 <= batchSize this ->
  (forall (T : Type) (texts : list T) fuel,
     (List.length texts <= fuel)%nat ->
     exists chunked,
       batchTexts fuel this texts = Some chunked
       /\ Z.of_nat (List.length chunked)
          = ceil_div (Z.of_nat (List.length texts)) (batchSize this)
       /\ Forall (fun chunk => 1 <= Z.of_nat (List.length chunk) <= batchSize this)
            chunked
       /\ (forall k, (S k < List.length chunked)%nat ->
             Z.of_nat (List.length (nth k chunked [])) = batchSize this)
       /\ (forall k, (k < List.length chunked)%nat ->
             nth k chunked []
             = firstn (Z.to_nat (batchSize this))
                 (skipn (k * Z.to_nat (batchSize this)) texts))
       /\ List.concat chunked = texts)
  /\ (forall documents fuel tr,
        (List.length documents <= fuel)%nat ->
        exists batches result tr' attempts,
          batchTexts fuel this documents = Some batches
          /\ embedDocuments Number_toString remote fuel this documents tr
             = Some (result, tr')
          /\ (List.length attempts <= List.length batches)%nat
          /\ Forall (fun k => (1 <= k)%nat) attempts
          /\ tr' = tr ++ calls_events
                           (fun batch =>
                              command_of Number_toString this batch
                                (inputTypeDocument this))
                           batches attempts
          /\ remote_calls tr' = (remote_calls tr + List.length attempts)%nat
          /\ (forall vectors, result = inr vectors ->
                List.length attempts = List.length batches
                /\ Z.of_nat (remote_calls tr')
                   = Z.of_nat (remote_calls tr)
                     + ceil_div (Z.of_nat (List.length documents)) (batchSize this))
          /\ calls_in_order Number_toString remote this batches tr tr'
               (raised result)).
Proof.
  intros Hsize.
  assert (Hn : (1 <= Z.to_nat (batchSize this))%nat) by lia.
  assert (Hpure : forall (T : Type) (texts : list T) fuel,
     (List.length texts <= fuel)%nat ->
     batchTexts fuel this texts
       = Some (chunks fuel (Z.to_nat (batchSize this)) texts)
     /\ Z.of_nat (List.length (chunks fuel (Z.to_nat (batchSize this)) texts))
        = ceil_div (Z.of_nat (List.length texts)) (batchSize this)).
  { intros T texts fuel Hfuel. split; [now apply batchTexts_chunks|].
    rewrite chunks_count by assumption. f_equal. lia. }
  split.
  - intros T texts fuel Hfuel. destruct (Hpure T texts fuel Hfuel) as [Hb Hcount].
    exists (chunks fuel (Z.to_nat (batchSize this)) texts).
    split; [exact Hb|]. split; [exact Hcount|]. split; [|split; [|split]].
    + eapply Forall_impl; [|apply chunks_bounds; exact Hn].
      cbn beta. intros batch H. lia.
    + intros k Hk. rewrite chunks_full by assumption. lia.
    + intros k Hk. now apply chunks_nth.
    + now apply concat_chunks.
  - intros documents fuel tr Hfuel.
    destruct (Hpure string documents fuel Hfuel) as [Hb Hcount].
    exists (chunks fuel (Z.to_nat (batchSize this)) documents).
    destruct documents as [|d documents].
    + exists (inr []), tr, []. rewrite chunks_nil.
      split; [apply batchTexts_empty|]. split; [reflexivity|].
      split; [simpl; lia|]. split; [constructor|].
      split; [unfold calls_events; simpl; now rewrite app_nil_r|].
      split; [simpl; lia|]. split; [|constructor].
      intros _ _. split; [reflexivity|].
      rewrite ceil_div_zero by lia. lia.
    + rewrite embedDocuments_batches, Hb by discriminate.
      destruct (embed_batches Number_toString remote this
                  (chunks fuel (Z.to_nat (batchSize this)) (d :: documents)) [] tr)
        as [result tr'] eqn:Hrun.
      destruct (embed_batches_trace _ _ _ _ _ _ Hrun)
        as (attempts & Hlen & Hall & Htr & Hok).
      exists result, tr', attempts.
      split; [reflexivity|]. split; [reflexivity|]. split; [exact Hlen|].
      split; [eapply Forall_impl; [|exact Hall]; cbn beta; intros; lia|].
      split; [exact Htr|].
      assert (Hcalls : remote_calls tr' = (remote_calls tr + List.length attempts)%nat).
      { rewrite Htr, remote_calls_app, remote_calls_calls_events by exact Hlen.
        reflexivity. }
      split; [exact Hcalls|].
      split; [|exact (embed_batches_calls_in_order _ _ _ _ _ _ Hrun)].
      intros vectors Hr. split; [now apply (Hok vectors)|].
      rewrite Hcalls, (Hok vectors Hr), Nat2Z.inj_add, Hcount. reflexivity.
Qed.

(** ** Failure of a batch *)

(** C2: when the batches before some batch have all been embedded and the
    remote call for that batch fails (the retry wrapper gives up with an
    exception), [embedDocuments] fails with that exception: its result holds
    no vector, those of the earlier batches included, and its trace ends
    with the failed call, which used every attempt; one call was made for
    each earlier batch and for the failing one, none for a later batch. *)
Theorem embedDocuments_all_or_nothing
    fuel this documents before batch after vectors e tr tr1 tr2 :
  batchTexts fuel this documents = Some (before ++ batch :: after) ->
  embed_batches Number_toString remote this before [] tr = (inr vectors, tr1) ->
  caller_call this
    (invokeCohere Number_toString remote this batch (inputTypeDocument this)) tr1
  = (inl e, tr2) ->
  embedDocuments Number_toString remote fuel this documents tr = Some (inl e, tr2)
  /\ (exists attempts,
        List.length attempts = List.length before
        /\ tr2 = tr ++ calls_events
                         (fun batch =>
                            command_of Number_toString this batch
                              (inputTypeDocument this))
                         (before ++ [batch])
                         (attempts ++ [S (maxRetries this)]))
  /\ remote_calls tr2 = (remote_calls tr + List.length before + 1)%nat.
Proof.
  intros Hbatches Hbefore Hcall.
  assert (Hne : documents <> []).
  { intros ->. rewrite batchTexts_empty in Hbatches.
    destruct before; discriminate. }
  destruct (embed_batches_trace _ _ _ _ _ _ Hbefore)
    as (attempts & _ & _ & Htr1 & Hok).
  specialize (Hok vectors eq_refl).
  destruct (caller_call_invokeCohere _ _ _ _ _ _ Hcall) as (k & _ & Htr2 & Hk).
  specialize (Hk e eq_refl). subst k.
  assert (Htrace : tr2 = tr ++ calls_events
                         (fun batch =>
                            command_of Number_toString this batch
                              (inputTypeDocument this))
                         (before ++ [batch])
                         (attempts ++ [S (maxRetries this)])).
  { rewrite calls_events_snoc by exact Hok.
    rewrite Htr2, Htr1, <- app_assoc. reflexivity. }
  split; [|split].
  - rewrite embedDocuments_batches, Hbatches by exact Hne.
    rewrite embed_batches_app, Hbefore.
    cbn [embed_batches]. unfold bind. now rewrite Hcall.
  - exists attempts. split; [exact Hok | exact Htrace].
  - rewrite Htrace, remote_calls_app, remote_calls_calls_events
      by (rewrite !length_app; simpl; lia).
    rewrite length_app. simpl. lia.
Qed.

(** ** Length and order *)

(** C4, as amended: with an effective batch size of at least 1, when every
    remote call made for a batch of the input answers with one vector for
    each string of the batch, in the order of the batch, [embedDocuments]
    returns as many vectors as there are input strings, the i-th vector
    corresponding to the i-th string. *)
Theorem embedDocuments_preserves_order
    (corresponds : string -> json number -> Prop) fuel this documents tr :
  1 <= batchSize this ->
  (List.length documents <= fuel)%nat ->
  (forall batches batch tr0,
     batchTexts fuel this documents = Some batches -> In batch batches ->
     exists vectors tr1,
       caller_call this
         (invokeCohere Number_toString remote this batch (inputTypeDocument this)) tr0
       = (inr (Some (JArr vectors)), tr1)
       /\ Forall2 corresponds batch vectors) ->
  exists vectors tr',
    embedDocuments Number_toString remote fuel this documents tr
    = Some (inr vectors, tr')
    /\ List.length vectors = List.length documents
    /\ Forall2 corresponds documents vectors.
Proof.
  intros Hsize Hfuel Hremote.
  pose proof (batchTexts_chunks fuel this documents Hsize Hfuel) as Hb.
  destruct documents as [|d documents].
  - exists [], tr. repeat split. constructor.
  - destruct (embed_batches_vectors this corresponds _
                (fun batch tr0 => Hremote _ batch tr0 Hb) [] tr)
      as (vectors & tr' & Hrun & Hvectors).
    rewrite concat_chunks in Hvectors by (assumption || lia).
    exists vectors, tr'. split; [|split].
    + rewrite embedDocuments_batches, Hb by discriminate. now rewrite Hrun.
    + symmetry. eapply Forall2_length. exact Hvectors.
    + exact Hvectors.
Qed.

(** ** embedQuery and embedDocuments *)


End Runs.

(** * The theorems at work on sample runs *)

Section Samples.

Import Sample.

(** The two response shapes and a malformed one. *)
Example extractEmbeddings_v3 :
  extractEmbeddings show
    (JObj [("embeddings", JArr [JArr [JNum 1; JNum 2]; JArr [JNum 3; JNum 4]])])
  = inr (Some (JArr [JArr [JNum 1; JNum 2]; JArr [JNum 3; JNum 4]])).
Proof. reflexivity. Qed.

Example extractEmbeddings_v4 :
  extractEmbeddings show
    (JObj [("embeddings",
            JObj [("float", JArr [JArr [JNum 1; JNum 2]; JArr [JNum 3; JNum 4]])])])
  = inr (Some (JArr [JArr [JNum 1; JNum 2]; JArr [JNum 3; JNum 4]])).
Proof. reflexivity. Qed.

Example extractEmbeddings_bad :
  extractEmbeddings show (JObj [("embeddings", JStr "bad")])
  = inl (Error ("Unexpected Cohere response format: {"
                ++ quote "embeddings" ++ ":" ++ quote "bad" ++ "}")%string).
Proof. reflexivity. Qed.

(** The body of a request: the newline of the first text is sent as a
    space. *)
Example command_of_body :
  body (command_of show (adapter 200)
          [("one" ++ String newline "two")%string; "three"] search_document)
  = ("{" ++ quote "texts" ++ ":[" ++ quote "one two" ++ "," ++ quote "three" ++ "],"
     ++ quote "input_type" ++ ":" ++ quote "search_document" ++ ","
     ++ quote "truncate" ++ ":" ++ quote "END" ++ "}")%string.
Proof. reflexivity. Qed.

(** The loop on a batch size of 2, and two slices with relative indices. *)
Example batchTexts_five :
  batchTexts 3 (adapter 2) five = Some [["a"; "b"]; ["c"; "d"]; ["e"]]
  /\ batchTexts 2 (adapter 2) five = None
  /\ slice five (-2) 10 = ["d"; "e"]
  /\ slice five 4 2 = [].
Proof. repeat split. Qed.

(** Five documents in batches of two against a remote that serves the first
    batch only: the second call fails, the third is never made. *)
Lemma embedDocuments_all_or_nothing_witness :
  batchTexts 5 (adapter 2) five = Some ([["a"; "b"]] ++ ["c"; "d"] :: [["e"]])
  /\ exists tr2,
       embedDocuments show remote_first 5 (adapter 2) five []
       = Some (inl throttled, tr2)
       /\ remote_calls tr2 = 2%nat
       /\ List.length (sent tr2) = 5%nat.
Proof.
  split; [reflexivity|].
  edestruct (embedDocuments_all_or_nothing Z show remote_first 5 (adapter 2) five
               [["a"; "b"]] ["c"; "d"] [["e"]]) as (Hrun & _ & Hcalls).
  - reflexivity.
  - reflexivity.
  - reflexivity.
  - eexists. split; [exact Hrun|]. split; [exact Hcalls | reflexivity].
Defined.

(** Five documents in batches of two: three chunks; and against a remote
    that answers every request, three calls, one for each chunk in order. *)
Lemma batchTexts_batching_witness :
  1 <= batchSize (adapter 2)
  /\ (exists chunked,
        batchTexts 5 (adapter 2) five = Some chunked
        /\ Z.of_nat (List.length chunked) = 3
        /\ List.concat chunked = five)
  /\ exists vectors tr',
       embedDocuments show remote_a 5 (adapter 2) five [] = Some (inr vectors, tr')
       /\ remote_calls tr' = 3%nat
       /\ calls_in_order show remote_a (adapter 2)
            [["a"; "b"]; ["c"; "d"]; ["e"]] [] tr' None.
Proof.
  assert (H : 1 <= batchSize (adapter 2)) by (cbn; lia).
  split; [exact H|].
  destruct (batchTexts_batching Z show remote_a (adapter 2) H) as [Hpure Hruns].
  split.
  - destruct (Hpure string five 5%nat (le_n 5))
      as (chunked & Hb & Hcount & _ & _ & _ & Hconcat).
    exists chunked. split; [exact Hb|]. split; [exact Hcount | exact Hconcat].
  - destruct (Hruns five 5%nat [] (le_n 5))
      as (batches & result & tr' & attempts & Hb & Hrun & _ & _ & _ & Hcalls
          & Hok & Horder).
    assert (Hbatches : batches = [["a"; "b"]; ["c"; "d"]; ["e"]])
      by (vm_compute in Hb; congruence).
    subst batches.
    destruct result as [e|vectors].
    + vm_compute in Hrun. discriminate Hrun.
    + exists vectors, tr'. split; [exact Hrun|].
      destruct (Hok vectors eq_refl) as [Hlen _].
      split; [rewrite Hcalls, Hlen; reflexivity | exact Horder].
Defined.

(** Three documents in batches of two against a remote that serves both
    batches. *)
Lemma embedDocuments_preserves_order_witness :
  1 <= batchSize (adapter 2)
  /\ exists vectors tr',
       embedDocuments show remote_both 3 (adapter 2) ["a"; "bb"; "ccc"] []
       = Some (inr vectors, tr')
       /\ List.length vectors = 3%nat
       /\ Forall2 (fun text vector => vector = vector_of text)
            ["a"; "bb"; "ccc"] vectors.
Proof.
  assert (H : 1 <= batchSize (adapter 2)) by (cbn; lia).
  split; [exact H|].
  apply (embedDocuments_preserves_order Z show remote_both
           (fun text vector => vector = vector_of text) 3 (adapter 2)
           ["a"; "bb"; "ccc"] [] H).
  - simpl. lia.
  - intros batches batch tr0 Hb Hin.
    vm_compute in Hb. injection Hb as <-.
    destruct Hin as [<-|[<-|[]]];
      eexists; eexists; (split; [reflexivity | repeat constructor]).
Defined.


(** Without a positive batch size nothing returns; with the default one
    everything does. *)
Lemma batchSize_positive_needed_witness :
  (forall fuel, batchTexts fuel (adapter 0) ["a"] = None)
  /\ exists batches, batchTexts 1 (adapter 96) ["a"] = Some batches.
Proof.
  split.
  - intros fuel.
    destruct (batchSize_positive_needed Z show remote_a (adapter 0) ["a"])
      as (_ & Hstuck & _).
    apply Hstuck; [cbn; lia | discriminate].
  - destruct (batchSize_positive_needed Z show remote_a (adapter 96) ["a"])
      as (_ & _ & Hruns).
    apply (Hruns ltac:(cbn; lia) 1%nat (le_n 1)).
Defined.

(** A query answered with an empty [embeddings] array. *)
Lemma embedQuery_empty_embeddings_witness :
  embedQuery show remote_empty (adapter 96) "q" []
  = (inr undefined, [EvCall; EvSend (command_of show (adapter 96) ["q"] search_query)]).
Proof.
  apply (embedQuery_empty_embeddings Z show remote_empty (adapter 96) "q" []
           empty_response).
  - reflexivity.
  - left. reflexivity.
Defined.

(** ** Where the claims as first stated fail *)

(** C4 as first stated, for every configuration: the adapter constructed
    with a requested batch size of 0 gets the non-empty input [["a"]]; the
    remote answers the call for the batch [["a"]] with exactly one vector;
    and [embedDocuments] returns nothing, whatever the fuel. *)
Lemma embedDocuments_batchSize_zero_counterexample :
  batchSize (adapter 0) = 0
  /\ (forall tr0,
        caller_call (adapter 0)
          (invokeCohere show remote_a (adapter 0) ["a"] search_document) tr0
        = (inr (Some (JArr [vector_of "a"])),
           tr0 ++ call_events (command_of show (adapter 0) ["a"] search_document) 1))
  /\ ~ (exists fuel tr result,
          embedDocuments show remote_a fuel (adapter 0) ["a"] tr = Some result).
Proof.
  split; [reflexivity|]. split.
  - intros tr0. cbn. rewrite <- app_assoc. reflexivity.
  - intros (fuel & tr & result & H).
    rewrite embedDocuments_stuck in H; [discriminate | cbn; lia | discriminate].
Qed.


End Samples.

(** * Further properties of the adapter and of the node *)

Section Responses.

Variable number : Type.
Variable Number_toString : number -> string.

(** X1: [extractEmbeddings] returns exactly when [embeddings] is an array,
    which is then the result, or an object with a [float] member, which is
    then the result; what it returns is never [undefined]. *)
Theorem extractEmbeddings_returns_iff (response : json number) (result : value number) :
  extractEmbeddings Number_toString response = inr result
  <-> ((exists items,
          get_named (Some response) "embeddings" = inr (Some (JArr items))
          /\ result = Some (JArr items))
       \/ (exists props vectors,
             get_named (Some response) "embeddings" = inr (Some (JObj props))
             /\ own_property "float" props = Some vectors
             /\ result = Some vectors)).
Proof.
  unfold extractEmbeddings.
  destruct (get_named (Some response) "embeddings") as [e|embeddings] eqn:Hget.
  - split; [discriminate|].
    intros [(items & H & _) | (props & vectors & H & _)]; discriminate.
  - destruct embeddings as [[| b | n | s | items | props]|]; cbn;
      try (split; [discriminate|];
           intros [(items' & H & _) | (props' & vectors & H & _)]; discriminate).
    + split.
      * intros H. left. exists items. split; [reflexivity | congruence].
      * intros [(items' & H & ->) | (props' & vectors & H & _)];
          [congruence | discriminate].
    + destruct (own_property "float" props) as [vectors|] eqn:Hfloat.
      * split.
        -- intros H. right. exists props, vectors.
           split; [reflexivity | split; [assumption | congruence]].
        -- intros [(items' & H & _) | (props' & vectors' & H & Hf & ->)];
             [discriminate | congruence].
      * split; [discriminate|].
        intros [(items' & H & _) | (props' & vectors' & H & Hf & _)];
          [discriminate | congruence].
Qed.

(** X2: the exceptions of [extractEmbeddings].  It raises a [TypeError]
    exactly when the response is [null] or its [embeddings] is [null];
    every other exception it raises is the [Error] whose message is the
    format notice followed by the serialization of the response. *)
Theorem extractEmbeddings_raises (response : json number) (e : JsError) :
  extractEmbeddings Number_toString response = inl e ->
  (name e = "TypeError"
   /\ (response = JNull
       \/ get_named (Some response) "embeddings" = inr (Some JNull)))
  \/ (name e = "Error"
      /\ message e
         = ("Unexpected Cohere response format: "
            ++ JSON_stringify Number_toString response)%string
      /\ response <> JNull
      /\ get_named (Some response) "embeddings" <> inr (Some JNull)).
Proof.
  unfold extractEmbeddings.
  destruct response as [| b | n | s | items | props]; cbn;
    try (intros H; injection H as <-; right;
         repeat split; discriminate).
  - intros H; injection H as <-. left. split; [reflexivity | now left].
  - destruct (own_property "embeddings" props)
      as [[| b | n | s | items | props']|] eqn:Hget; cbn;
      try discriminate;
      try (intros H; injection H as <-; right; repeat split; discriminate).
    + intros H; injection H as <-. left. split; [reflexivity | now right].
    + destruct (own_property "float" props'); [discriminate|].
      intros H; injection H as <-. right. repeat split; discriminate.
Qed.

End Responses.

Section Requests.

Variable number : Type.
Variable Number_toString : number -> string.
Variable remote : trace -> InvokeModelCommand -> JsError + json number.

Lemma replace_newlines_idempotent text :
  replace_newlines (replace_newlines text) = replace_newlines text.
Proof.
  induction text as [|c text IH]; [reflexivity|]. simpl. rewrite IH. f_equal.
  destruct (Ascii.eqb_spec c newline) as [->|Hc]; [reflexivity|].
  now destruct (Ascii.eqb_spec c newline).
Qed.

Lemma replace_newlines_none text :
  (forall i, String.get i text <> Some newline) -> replace_newlines text = text.
Proof.
  induction text as [|c text IH]; intros Hfree; [reflexivity|]. simpl.
  rewrite IH by (intros i; exact (Hfree (S i))). f_equal.
  destruct (Ascii.eqb_spec c newline) as [->|_]; [|reflexivity].
  now specialize (Hfree 0%nat).
Qed.

(** X3: only the cleaned texts reach the remote.  Two batches whose texts
    are equal once their newlines are replaced, in particular a batch and
    its cleaned copy, give the same run of [invokeCohere]: the same command
    and the same outcome. *)
Theorem invokeCohere_cleaned_equal this texts texts' inputType tr :
  map replace_newlines texts = map replace_newlines texts' ->
  command_of Number_toString this texts inputType
    = command_of Number_toString this texts' inputType
  /\ invokeCohere Number_toString remote this texts inputType tr
     = invokeCohere Number_toString remote this texts' inputType tr
  /\ invokeCohere Number_toString remote this (map replace_newlines texts) inputType tr
     = invokeCohere Number_toString remote this texts inputType tr.
Proof.
  intros Hclean.
  assert (Hcommand : forall a b, map replace_newlines a = map replace_newlines b ->
            command_of Number_toString this a inputType
            = command_of Number_toString this b inputType).
  { intros a b H. unfold command_of, requestBody. now rewrite H. }
  assert (Hidem : map replace_newlines (map replace_newlines texts)
                  = map replace_newlines texts).
  { rewrite map_map. apply map_ext. intros text. apply replace_newlines_idempotent. }
  split; [now apply Hcommand|].
  rewrite !invokeCohere_run. split.
  - now rewrite (Hcommand texts texts' Hclean).
  - now rewrite (Hcommand (map replace_newlines texts) texts Hidem).
Qed.

(** X4: texts that hold no newline are sent as they are: the [texts] member
    of the request is the batch itself. *)
Theorem requestBody_unchanged this texts inputType :
  (forall text i, In text texts -> String.get i text <> Some newline) ->
  requestBody this texts inputType
  = JObj [ ("texts", JArr (map (@JStr number) texts));
           ("input_type", JStr (CohereInputType_value inputType));
           ("truncate", JStr (CohereTruncate_value (truncate this))) ].
Proof.
  intros Hfree. unfold requestBody.
  replace (map replace_newlines texts) with texts; [reflexivity|].
  induction texts as [|text texts IH]; [reflexivity|]. simpl. f_equal.
  - symmetry. apply replace_newlines_none. intros i. apply Hfree. now left.
  - apply IH. intros t i Hin. apply Hfree. now right.
Qed.

Lemma string_forall_app test (a b : string) :
  string_forall test (a ++ b)%string
  = string_forall test a && string_forall test b.
Proof.
  induction a as [|c a IH]; [reflexivity|]. simpl. now rewrite IH, andb_assoc.
Qed.

Lemma escape_char_not_control c : string_forall not_control (escape_char c) = true.
Proof. destruct c as [[] [] [] [] [] [] [] []]; reflexivity. Qed.

Lemma escape_not_control s : string_forall not_control (escape s) = true.
Proof.
  induction s as [|c s IH]; [reflexivity|]. simpl.
  now rewrite string_forall_app, escape_char_not_control, IH.
Qed.

Lemma quote_not_control s : string_forall not_control (quote s) = true.
Proof.
  unfold quote. cbn [string_forall].
  now rewrite string_forall_app, escape_not_control.
Qed.

Lemma concat_quote_not_control texts :
  string_forall not_control (String.concat "," (map quote texts)) = true.
Proof.
  induction texts as [|text texts IH]; [reflexivity|].
  destruct texts as [|text' texts].
  - apply quote_not_control.
  - change (String.concat "," (map quote (text :: text' :: texts)))
      with (quote text ++ "," ++ String.concat "," (map quote (text' :: texts)))%string.
    rewrite !string_forall_app, quote_not_control, IH. reflexivity.
Qed.

(** X5: the body of a request holds no control character, whatever the
    texts hold: newlines are replaced, and tabs, carriage returns and the
    other characters below the space are written as escapes. *)
Theorem command_body_not_control this texts inputType :
  string_forall not_control
    (body (command_of Number_toString this texts inputType)) = true.
Proof.
  unfold command_of, requestBody. cbn [body JSON_stringify map fst snd].
  rewrite map_map. cbn [JSON_stringify String.concat].
  repeat (rewrite string_forall_app
          || rewrite quote_not_control
          || rewrite concat_quote_not_control).
  reflexivity.
Qed.

End Requests.

(** ** Batches and requests *)

Lemma batchTexts_loop_done {T : Type} fuel size (texts : list T) i batches :
  Z.of_nat (List.length texts) <= i ->
  batchTexts_loop fuel size texts i batches = Some batches.
Proof.
  intros Hi. destruct fuel; cbn [batchTexts_loop];
    destruct (Z.ltb_spec i (Z.of_nat (List.length texts))); (lia || reflexivity).
Qed.

(** An input that fits in one batch is one batch, after one iteration. *)
Lemma batchTexts_fits {T : Type} fuel this (texts : list T) :
  (1 <= List.length texts)%nat ->
  Z.of_nat (List.length texts) <= batchSize this ->
  (1 <= fuel)%nat ->
  batchTexts fuel this texts = Some [texts].
Proof.
  intros Hne Hfits Hfuel. unfold batchTexts.
  destruct fuel as [|fuel]; [lia|]. cbn [batchTexts_loop].
  destruct (Z.ltb_spec 0 (Z.of_nat (List.length texts))) as [_|?]; [|lia].
  rewrite batchTexts_loop_done by lia.
  rewrite slice_next by lia. cbn [app skipn Z.to_nat].
  rewrite firstn_all2 by lia. reflexivity.
Qed.

Lemma sent_app tr1 tr2 : sent (tr1 ++ tr2) = sent tr1 ++ sent tr2.
Proof.
  induction tr1 as [|[|command] tr1 IH]; simpl; [reflexivity | exact IH | now rewrite IH].
Qed.

Lemma sent_call_events command k : sent (call_events command k) = repeat command k.
Proof.
  unfold call_events. cbn [sent].
  induction k as [|k IH]; [reflexivity|]. simpl. now rewrite IH.
Qed.

(** The commands of the calls are those of the batches called for. *)
Lemma sent_calls_events command : forall batches attempts,
  Forall (fun sent_command => exists batch,
            In batch batches /\ sent_command = command batch)
    (sent (calls_events command batches attempts)).
Proof.
  induction batches as [|batch batches IH]; intros [|k attempts];
    try (unfold calls_events; simpl; constructor).
  rewrite calls_events_cons, sent_app, sent_call_events.
  apply Forall_app. split.
  - apply Forall_forall. intros c Hc. apply repeat_spec in Hc. subst c.
    exists batch. split; [now left | reflexivity].
  - eapply Forall_impl; [|apply IH]. cbn beta.
    intros c (b & Hin & ->). exists b. split; [now right | reflexivity].
Qed.

(** With one attempt for each batch, every batch's command is sent once. *)
Lemma sent_calls_events_once command : forall batches,
  sent (calls_events command batches (repeat 1%nat (List.length batches)))
  = map command batches.
Proof.
  induction batches as [|batch batches IH]; [reflexivity|].
  cbn [List.length repeat map].
  rewrite calls_events_cons, sent_app, sent_call_events, IH. reflexivity.
Qed.

Lemma chunks_In_bounds {T : Type} fuel n (l chunk : list T) :
  (1 <= n)%nat -> In chunk (chunks fuel n l) ->
  (1 <= List.length chunk <= n)%nat.
Proof.
  intros Hn Hin.
  pose proof (chunks_bounds fuel n l Hn) as Hall.
  rewrite Forall_forall in Hall. now apply Hall.
Qed.

Lemma chunks_more_fuel {T : Type} n : forall fuel (l : list T),
  (1 <= n)%nat -> (List.length l <= fuel)%nat ->
  chunks (S fuel) n l = chunks fuel n l.
Proof.
  induction fuel as [|fuel IH]; intros l Hn Hfuel.
  - destruct l; [reflexivity | simpl in Hfuel; lia].
  - destruct l as [|x l]; [reflexivity|].
    change (chunks (S (S fuel)) n (x :: l))
      with (firstn n (x :: l) :: chunks (S fuel) n (skipn n (x :: l))).
    rewrite IH; [reflexivity | assumption |].
    rewrite length_skipn. cbn [List.length] in *. lia.
Qed.

(** Chunking distributes over a concatenation whose first part is a whole
    number of chunks. *)
Lemma chunks_app {T : Type} n : forall fuel (a b : list T) count,
  (1 <= n)%nat -> (List.length (a ++ b) <= fuel)%nat ->
  List.length a = (count * n)%nat ->
  chunks fuel n (a ++ b) = chunks fuel n a ++ chunks fuel n b.
Proof.
  induction fuel as [|fuel IH]; intros a b count Hn Hfuel Hcount.
  - destruct a, b; simpl in Hfuel; try lia. reflexivity.
  - destruct a as [|x a]; [now rewrite chunks_nil|].
    destruct count as [|count]; [simpl in Hcount; lia|].
    assert (Hlen : (n <= List.length (x :: a))%nat) by (rewrite Hcount; simpl; lia).
    rewrite length_app in Hfuel.
    change (chunks (S fuel) n ((x :: a) ++ b))
      with (firstn n ((x :: a) ++ b) :: chunks fuel n (skipn n ((x :: a) ++ b))).
    change (chunks (S fuel) n (x :: a))
      with (firstn n (x :: a) :: chunks fuel n (skipn n (x :: a))).
    rewrite firstn_app, skipn_app.
    replace (n - List.length (x :: a))%nat with 0%nat by lia.
    cbn [firstn skipn]. rewrite app_nil_r.
    rewrite (IH (skipn n (x :: a)) b count Hn).
    + rewrite chunks_more_fuel by (cbn [List.length] in *; lia). reflexivity.
    + rewrite length_app, length_skipn. cbn [List.length] in *. lia.
    + rewrite length_skipn, Hcount. simpl. lia.
Qed.

Section Coverage.

Variable number : Type.
Variable Number_toString : number -> string.
Variable remote : trace -> InvokeModelCommand -> JsError + json number.

(** The accumulator of the loop is a prefix of its result and has no other
    part in the run. *)
Lemma embed_batches_accumulator this : forall batches allEmbeddings tr,
  embed_batches Number_toString remote this batches allEmbeddings tr
  = match embed_batches Number_toString remote this batches [] tr with
    | (inl e, tr') => (inl e, tr')
    | (inr vectors, tr') => (inr (allEmbeddings ++ vectors), tr')
    end.
Proof.
  induction batches as [|batch batches IH]; intros allEmbeddings tr.
  - cbn. unfold ret. now rewrite app_nil_r.
  - cbn [embed_batches]. unfold bind, lift.
    destruct (caller_call this _ tr) as [[e|embeddings] tr1]; [reflexivity|].
    destruct (spread embeddings) as [e|pushed]; [reflexivity|].
    rewrite (IH (allEmbeddings ++ pushed)), (IH ([] ++ pushed)).
    destruct (embed_batches Number_toString remote this batches [] tr1)
      as [[e|vectors] tr']; [reflexivity|].
    cbn [app]. now rewrite app_assoc.
Qed.

(** A call whose first attempt is answered with a well-formed response. *)
Lemma caller_call_first_attempt this texts inputType tr response embeddings :
  remote (tr ++ [EvCall]) (command_of Number_toString this texts inputType)
    = inr response ->
  extractEmbeddings Number_toString response = inr embeddings ->
  caller_call this (invokeCohere Number_toString remote this texts inputType) tr
  = (inr embeddings,
     tr ++ call_events (command_of Number_toString this texts inputType) 1).
Proof.
  intros Hremote Hextract. unfold caller_call.
  destruct (maxRetries this); cbn [attempt]; rewrite invokeCohere_run;
    rewrite Hremote, Hextract; unfold call_events; cbn [repeat];
    rewrite <- app_assoc; reflexivity.
Qed.

(** X6: an input of at most [batchSize] documents is embedded with one
    call, for the whole input: one iteration of the batching loop, and a
    trace extended by that call alone. *)
Theorem embedDocuments_one_batch fuel this documents tr :
  (1 <= List.length documents)%nat ->
  Z.of_nat (List.length documents) <= batchSize this ->
  (1 <= fuel)%nat ->
  batchTexts fuel this documents = Some [documents]
  /\ exists result attempts,
       embedDocuments Number_toString remote fuel this documents tr
       = Some (result,
               tr ++ call_events
                       (command_of Number_toString this documents
                          (inputTypeDocument this)) attempts)
       /\ (1 <= attempts <= S (maxRetries this))%nat.
Proof.
  intros Hne Hfits Hfuel.
  pose proof (batchTexts_fits fuel this documents Hne Hfits Hfuel) as Hb.
  split; [exact Hb|].
  rewrite embedDocuments_batches, Hb by (destruct documents; [simpl in Hne; lia | discriminate]).
  cbn [embed_batches]. unfold bind, lift, ret.
  destruct (caller_call this _ tr) as [[e|embeddings] tr1] eqn:Hcall;
    apply caller_call_invokeCohere in Hcall as (k & Hk & -> & _).
  - exists (inl e), k. split; [reflexivity | exact Hk].
  - destruct (spread embeddings) as [e|pushed].
    + exists (inl e), k. split; [reflexivity | exact Hk].
    + exists (inr ([] ++ pushed)), k. split; [reflexivity | exact Hk].
Qed.

(** X7: no request of [embedDocuments] carries more than 96 texts.  For an
    adapter made by the constructor with a positive batch size, every
    command a run sends is the command of one of the batches of the input,
    under the document input-type, and that batch has between 1 and 96
    texts. *)
Theorem embedDocuments_requests_bounded params fuel documents tr :
  1 <= batchSize (constructor params) ->
  (List.length documents <= fuel)%nat ->
  exists batches result delta,
    batchTexts fuel (constructor params) documents = Some batches
    /\ embedDocuments Number_toString remote fuel (constructor params) documents tr
       = Some (result, tr ++ delta)
    /\ Forall (fun command =>
                 exists batch,
                   In batch batches
                   /\ command
                      = command_of Number_toString (constructor params) batch
                          (inputTypeDocument (constructor params))
                   /\ (1 <= List.length batch <= 96)%nat)
         (sent delta).
Proof.
  intros Hsize Hfuel.
  set (this := constructor params) in *.
  pose proof (batchTexts_chunks fuel this documents Hsize Hfuel) as Hb.
  pose proof (constructor_batchSize_le params) as Hmax. fold this in Hmax.
  exists (chunks fuel (Z.to_nat (batchSize this)) documents).
  destruct documents as [|d documents].
  - exists (inr []), []. rewrite chunks_nil.
    split; [apply batchTexts_empty|]. split; [now rewrite app_nil_r|]. constructor.
  - rewrite embedDocuments_batches, Hb by discriminate.
    destruct (embed_batches Number_toString remote this
                (chunks fuel (Z.to_nat (batchSize this)) (d :: documents)) [] tr)
      as [result tr'] eqn:Hrun.
    destruct (embed_batches_trace _ _ _ _ _ _ _ _ _ Hrun)
      as (attempts & _ & _ & -> & _).
    eexists result, _. split; [reflexivity|]. split; [reflexivity|].
    eapply Forall_impl; [|apply sent_calls_events]. cbn beta.
    intros command (batch & Hin & ->). exists batch.
    split; [exact Hin|]. split; [reflexivity|].
    apply chunks_In_bounds in Hin; lia.
Qed.

(** The loop when every call is answered with an array: the result is the
    arrays one after the other. *)
Lemma embed_batches_answers this (answer : list string -> list (json number)) :
  forall batches,
  (forall batch tr0, In batch batches ->
     exists tr1,
       caller_call this
         (invokeCohere Number_toString remote this batch (inputTypeDocument this)) tr0
       = (inr (Some (JArr (answer batch))), tr1)) ->
  forall tr, exists tr',
    embed_batches Number_toString remote this batches [] tr
    = (inr (flat_map answer batches), tr').
Proof.
  induction batches as [|batch batches IH]; intros Hcalls tr.
  - exists tr. reflexivity.
  - destruct (Hcalls batch tr (or_introl eq_refl)) as (tr1 & Hcall).
    destruct (IH (fun b tr0 Hin => Hcalls b tr0 (or_intror Hin)) tr1) as (tr' & Hrun).
    exists tr'. cbn [embed_batches flat_map]. unfold bind, lift. rewrite Hcall.
    cbn [spread]. rewrite embed_batches_accumulator, Hrun. reflexivity.
Qed.

(** X8: [embedDocuments] does not compare the number of vectors with the
    number of texts.  When the call for each batch is answered with an
    array, whatever its length, the result is those arrays one after the
    other in the order of the batches, and no exception is raised. *)
Theorem embedDocuments_concatenates
    (answer : list string -> list (json number)) fuel this documents batches tr :
  documents <> [] ->
  batchTexts fuel this documents = Some batches ->
  (forall batch tr0, In batch batches ->
     exists tr1,
       caller_call this
         (invokeCohere Number_toString remote this batch (inputTypeDocument this)) tr0
       = (inr (Some (JArr (answer batch))), tr1)) ->
  exists tr',
    embedDocuments Number_toString remote fuel this documents tr
    = Some (inr (flat_map answer batches), tr').
Proof.
  intros Hne Hb Hcalls.
  destruct (embed_batches_answers this answer batches Hcalls tr) as (tr' & Hrun).
  exists tr'. now rewrite embedDocuments_batches, Hb, Hrun.
Qed.

(** The loop against a remote whose every response is well formed: one
    attempt for each batch. *)
Lemma embed_batches_no_retry this :
  (forall tr0 command, exists response items,
     remote tr0 command = inr response
     /\ extractEmbeddings Number_toString response = inr (Some (JArr items))) ->
  forall batches allEmbeddings tr, exists vectors,
    embed_batches Number_toString remote this batches allEmbeddings tr
    = (inr vectors,
       tr ++ calls_events
               (fun batch =>
                  command_of Number_toString this batch (inputTypeDocument this))
               batches (repeat 1%nat (List.length batches))).
Proof.
  intros Hremote.
  induction batches as [|batch batches IH]; intros allEmbeddings tr.
  - exists allEmbeddings. unfold calls_events. cbn. unfold ret. now rewrite app_nil_r.
  - destruct (Hremote (tr ++ [EvCall])
                (command_of Number_toString this batch (inputTypeDocument this)))
      as (response & items & Hresponse & Hextract).
    cbn [embed_batches]. unfold bind, lift.
    rewrite (caller_call_first_attempt _ _ _ _ _ _ Hresponse Hextract).
    cbn [spread].
    destruct (IH (allEmbeddings ++ items)
                 (tr ++ call_events
                          (command_of Number_toString this batch
                             (inputTypeDocument this)) 1))
      as (vectors & Hrun).
    exists vectors. rewrite Hrun. cbn [List.length repeat].
    rewrite calls_events_cons, <- app_assoc. reflexivity.
Qed.

(** X9: against a remote whose every response is well formed (an array, in
    either shape), [embedDocuments] with a batch size of at least 1 retries
    nothing: it returns its vectors after sending exactly one request for
    each batch, in the order of the batches, [ceil(N / B)] requests in
    all. *)
Theorem embedDocuments_one_request_per_batch fuel this documents tr :
  1 <= batchSize this ->
  (List.length documents <= fuel)%nat ->
  (forall tr0 command, exists response items,
     remote tr0 command = inr response
     /\ extractEmbeddings Number_toString response = inr (Some (JArr items))) ->
  exists batches vectors tr',
    batchTexts fuel this documents = Some batches
    /\ embedDocuments Number_toString remote fuel this documents tr
       = Some (inr vectors, tr')
    /\ sent tr'
       = sent tr ++ map (fun batch =>
                           command_of Number_toString this batch
                             (inputTypeDocument this)) batches
    /\ Z.of_nat (List.length (sent tr'))
       = Z.of_nat (List.length (sent tr))
         + ceil_div (Z.of_nat (List.length documents)) (batchSize this).
Proof.
  intros Hsize Hfuel Hremote.
  pose proof (batchTexts_chunks fuel this documents Hsize Hfuel) as Hb.
  assert (Hcount : Z.of_nat (List.length (chunks fuel (Z.to_nat (batchSize this)) documents))
                   = ceil_div (Z.of_nat (List.length documents)) (batchSize this)).
  { rewrite chunks_count by lia. f_equal. lia. }
  exists (chunks fuel (Z.to_nat (batchSize this)) documents).
  destruct documents as [|d documents].
  - exists [], tr. rewrite chunks_nil. split; [apply batchTexts_empty|].
    split; [reflexivity|]. cbn [map]. rewrite app_nil_r. split; [reflexivity|].
    rewrite ceil_div_zero by lia. lia.
  - destruct (embed_batches_no_retry this Hremote
                (chunks fuel (Z.to_nat (batchSize this)) (d :: documents)) [] tr)
      as (vectors & Hrun).
    eexists vectors, _. split; [exact Hb|].
    split; [rewrite embedDocuments_batches, Hb, Hrun by discriminate; reflexivity|].
    rewrite sent_app, sent_calls_events_once. split; [reflexivity|].
    rewrite length_app, length_map, Nat2Z.inj_add, Hcount. reflexivity.
Qed.

(** X10: [embedDocuments] on a concatenation whose first part is a whole
    number of batches is [embedDocuments] on the first part followed, when
    that returns vectors, by [embedDocuments] on the second part from the
    trace reached: the same requests, the same exception if either fails,
    and the two results one after the other if both return. *)
Theorem embedDocuments_app fuel this first second count tr :
  1 <= batchSize this ->
  (List.length (first ++ second) <= fuel)%nat ->
  Z.of_nat (List.length first) = Z.of_nat count * batchSize this ->
  embedDocuments Number_toString remote fuel this (first ++ second) tr
  = match embedDocuments Number_toString remote fuel this first tr with
    | Some (inr vectors, tr1) =>
        match embedDocuments Number_toString remote fuel this second tr1 with
        | Some (inr vectors', tr2) => Some (inr (vectors ++ vectors'), tr2)
        | failed => failed
        end
    | failed => failed
    end.
Proof.
  intros Hsize Hfuel Hcount. rewrite length_app in Hfuel.
  destruct first as [|x first].
  - cbn [app]. cbn.
    destruct (embedDocuments Number_toString remote fuel this second tr)
      as [[[e|vectors] tr2]|]; reflexivity.
  - destruct second as [|y second].
    + rewrite app_nil_r.
      destruct (embedDocuments Number_toString remote fuel this (x :: first) tr)
        as [[[e|vectors] tr1]|]; try reflexivity.
      cbn. now rewrite app_nil_r.
    + rewrite !embedDocuments_batches by discriminate.
      rewrite !batchTexts_chunks by (rewrite ?length_app; cbn [List.length] in *; lia).
      rewrite (chunks_app _ fuel (x :: first) (y :: second) count)
        by (rewrite ?length_app; cbn [List.length] in *; nia).
      rewrite embed_batches_app.
      destruct (embed_batches Number_toString remote this
                  (chunks fuel (Z.to_nat (batchSize this)) (x :: first)) [] tr)
        as [[e|vectors] tr1]; [reflexivity|].
      rewrite embedDocuments_batches by discriminate.
      rewrite batchTexts_chunks by (cbn [List.length] in *; lia).
      rewrite embed_batches_accumulator.
      destruct (embed_batches Number_toString remote this
                  (chunks fuel (Z.to_nat (batchSize this)) (y :: second)) [] tr1)
        as [[e|vectors'] tr2]; reflexivity.
Qed.

(** X11: an answer that is neither an array nor a string nor [null] (a v4
    response whose [float] is a number, a boolean or an object) is taken
    differently by the two operations: [embedQuery] returns without an
    exception, [embedDocuments] on the same text raises the [TypeError] of
    the spread, after the same remote call. *)
Theorem embedQuery_embedDocuments_not_iterable fuel this query tr answer tr1 :
  1 <= batchSize this -> (1 <= fuel)%nat ->
  caller_call this
    (invokeCohere Number_toString remote this [query] (inputTypeQuery this)) tr
  = (inr (Some answer), tr1) ->
  match answer with
  | JNum _ | JBool _ | JObj _ => True
  | _ => False
  end ->
  (exists result,
     embedQuery Number_toString remote this query tr = (inr result, tr1))
  /\ exists e,
       embedDocuments Number_toString remote fuel
         (with_inputTypeDocument this (inputTypeQuery this)) [query] tr
       = Some (inl e, tr1)
       /\ name e = "TypeError".
Proof.
  intros Hsize Hfuel Hcall Hshape. split.
  - unfold embedQuery, bind, lift. rewrite Hcall.
    destruct answer; try contradiction; eexists; reflexivity.
  - rewrite embedDocuments_batches by discriminate.
    rewrite batchTexts_fits by (cbn; lia).
    cbn [embed_batches]. unfold bind, lift.
    change (caller_call (with_inputTypeDocument this (inputTypeQuery this))
              (invokeCohere Number_toString remote
                 (with_inputTypeDocument this (inputTypeQuery this)) [query]
                 (inputTypeDocument (with_inputTypeDocument this (inputTypeQuery this))))
              tr)
      with (caller_call this
              (invokeCohere Number_toString remote this [query] (inputTypeQuery this)) tr).
    rewrite Hcall.
    destruct answer; try contradiction; eexists; split; reflexivity.
Qed.

End Coverage.

(** ** Reading a request body back *)

Lemma read_literal_escape_char c tail :
  read_literal (escape_char c ++ tail)%string = prepend c (read_literal tail).
Proof. destruct c as [[] [] [] [] [] [] [] []]; reflexivity. Qed.

Lemma read_literal_escape s : forall rest,
  read_literal (escape s ++ String dquote rest)%string = Some (s, rest).
Proof.
  induction s as [|c s IH]; intros rest; [reflexivity|].
  cbn [escape]. rewrite string_append_assoc, read_literal_escape_char, IH.
  reflexivity.
Qed.

(** A string literal at the head of a text determines its string and what
    follows it. *)
Lemma quote_injective s s' rest rest' :
  (quote s ++ rest = quote s' ++ rest')%string -> s = s' /\ rest = rest'.
Proof.
  unfold quote. cbn [append]. rewrite !string_append_assoc. cbn [append].
  intros H. injection H as H.
  apply (f_equal read_literal) in H. rewrite !read_literal_escape in H.
  injection H as -> ->. split; reflexivity.
Qed.

Lemma concat_quote_cons text texts :
  String.concat "," (map quote (text :: texts))
  = (quote text
     ++ match texts with
        | [] => ""
        | _ :: _ => "," ++ String.concat "," (map quote texts)
        end)%string.
Proof.
  destruct texts; cbn [map String.concat]; [|reflexivity].
  induction (quote text) as [|c q IH]; [reflexivity|]. cbn. now rewrite <- IH.
Qed.

(** The literals of an array, up to its closing bracket, determine the
    array and what follows the bracket. *)
Lemma concat_quote_injective : forall texts texts' rest rest',
  (String.concat "," (map quote texts) ++ "]" ++ rest
   = String.concat "," (map quote texts') ++ "]" ++ rest')%string ->
  texts = texts' /\ rest = rest'.
Proof.
  induction texts as [|text texts IH]; intros [|text' texts'] rest rest' H.
  - cbn in H. injection H as ->. split; reflexivity.
  - rewrite concat_quote_cons in H. cbn in H. discriminate.
  - rewrite concat_quote_cons in H. cbn in H. discriminate.
  - rewrite !concat_quote_cons, !string_append_assoc in H.
    apply quote_injective in H as [-> H].
    destruct texts as [|t texts], texts' as [|t' texts'].
    + cbn in H. injection H as ->. split; reflexivity.
    + cbn in H. discriminate.
    + cbn in H. discriminate.
    + remember (String.concat "," (map quote (t :: texts))) as A eqn:EA.
      remember (String.concat "," (map quote (t' :: texts'))) as A' eqn:EA'.
      cbn [append] in H. injection H as H. subst A A'.
      apply IH in H as [-> ->]. split; reflexivity.
Qed.

Lemma CohereInputType_value_injective t t' :
  CohereInputType_value t = CohereInputType_value t' -> t = t'.
Proof. destruct t, t'; (reflexivity || discriminate). Qed.

Lemma CohereTruncate_value_injective t t' :
  CohereTruncate_value t = CohereTruncate_value t' -> t = t'.
Proof. destruct t, t'; (reflexivity || discriminate). Qed.

Section Bodies.

Variable number : Type.
Variable Number_toString : number -> string.

Lemma string_append_cancel (prefix a b : string) :
  (prefix ++ a = prefix ++ b)%string -> a = b.
Proof.
  induction prefix as [|c prefix IH]; intros H; [exact H|].
  injection H as H. now apply IH.
Qed.

Lemma command_body_text this texts inputType :
  body (command_of Number_toString this texts inputType)
  = (body_opening
     ++ (String.concat "," (map quote (map replace_newlines texts))
         ++ "]"
         ++ (body_input_type
             ++ (quote (CohereInputType_value inputType)
                 ++ (body_truncate
                     ++ (quote (CohereTruncate_value (truncate this)) ++ "}"))))))%string.
Proof.
  unfold command_of, requestBody. cbn [body JSON_stringify map fst snd].
  rewrite map_map. cbn [JSON_stringify String.concat].
  unfold body_opening, body_input_type, body_truncate.
  rewrite !string_append_assoc. reflexivity.
Qed.

(** X13: a request body can be read back.  Two commands with the same body
    were built from batches that are equal once their newlines are
    replaced, for the same input-type and by adapters with the same
    truncation policy: quotes, backslashes, commas and control characters
    inside the texts never make two different requests look alike. *)
Theorem command_body_injective this that texts texts' inputType inputType' :
  body (command_of Number_toString this texts inputType)
  = body (command_of Number_toString that texts' inputType') ->
  map replace_newlines texts = map replace_newlines texts'
  /\ inputType = inputType'
  /\ truncate this = truncate that.
Proof.
  rewrite !command_body_text. intros H.
  apply string_append_cancel in H.
  apply concat_quote_injective in H as [Htexts H].
  apply string_append_cancel in H.
  apply quote_injective in H as [Htype H].
  apply string_append_cancel in H.
  apply quote_injective in H as [Htruncate _].
  split; [exact Htexts|]. split.
  - now apply CohereInputType_value_injective.
  - now apply CohereTruncate_value_injective.
Qed.

End Bodies.

(** ** The node *)

(** X12: what [supplyData] builds.  It builds the Cohere adapter unless
    [useCohereFormat] is set to false; that adapter has the model of the
    node, a batch size of 96 and a retry budget of 3 whatever the
    parameters are, so that [embedDocuments] on it returns for every input.
    Otherwise the generic embeddings get the model, 3 retries and the
    region of the credentials. *)
Theorem supplyData_builds credentials parameters :
  match supplyData credentials parameters with
  | SuppliedCohere adapter =>
      parameter_useCohereFormat parameters <> Some false
      /\ model adapter = parameter_model parameters
      /\ batchSize adapter = 96
      /\ maxRetries adapter = 3%nat
      /\ forall (number : Type) (Number_toString : number -> string)
           (remote : trace -> InvokeModelCommand -> JsError + json number)
           fuel documents tr,
           (List.length documents <= fuel)%nat ->
           exists result,
             embedDocuments Number_toString remote fuel adapter documents tr
             = Some result
  | SuppliedBedrock bedrockModel bedrockMaxRetries bedrockRegion =>
      parameter_useCohereFormat parameters = Some false
      /\ bedrockModel = parameter_model parameters
      /\ bedrockMaxRetries = 3%nat
      /\ bedrockRegion = region credentials
  end.
Proof.
  unfold supplyData.
  destruct (parameter_useCohereFormat parameters) as [[|]|]; cbn [nullish].
  3: split; [discriminate|].
  1: split; [discriminate|].
  1, 3: split; [reflexivity|]; split; [reflexivity|]; split; [reflexivity|];
    intros number Number_toString remote fuel documents tr Hfuel;
    (destruct documents as [|d documents]; [eexists; reflexivity|]);
    rewrite embedDocuments_batches by discriminate;
    rewrite batchTexts_chunks by (assumption || (cbn; lia));
    eexists; reflexivity.
  repeat split.
Qed.

(** ** The further properties on sample runs *)

Section MoreWitnesses.

Import Sample MoreSamples.

(** A response without [embeddings] raises the format error. *)
Lemma extractEmbeddings_raises_witness :
  name (unexpected_format show (JObj [("id", JStr "r-1")])) = "Error"
  /\ message (unexpected_format show (JObj [("id", JStr "r-1")]))
     = ("Unexpected Cohere response format: {" ++ quote "id" ++ ":" ++ quote "r-1" ++ "}")%string.
Proof.
  destruct (extractEmbeddings_raises Z show (JObj [("id", JStr "r-1")])
              (unexpected_format show (JObj [("id", JStr "r-1")])) eq_refl)
    as [[H _] | (Hname & Hmessage & _)].
  - discriminate H.
  - split; [exact Hname | exact Hmessage].
Defined.

(** A text with a newline and the same text with a space. *)
Lemma invokeCohere_cleaned_equal_witness :
  command_of show (adapter 2) [("one" ++ String newline "two")%string] search_document
  = command_of show (adapter 2) ["one two"] search_document.
Proof.
  exact (proj1 (invokeCohere_cleaned_equal Z show remote_a (adapter 2)
                  [("one" ++ String newline "two")%string] ["one two"]
                  search_document [] eq_refl)).
Defined.

Lemma requestBody_unchanged_witness :
  requestBody (adapter 2) ["a"; "b c"] search_query
  = JObj [ ("texts", JArr [@JStr Z "a"; JStr "b c"]);
           ("input_type", JStr "search_query");
           ("truncate", JStr "END") ].
Proof.
  apply (requestBody_unchanged Z (adapter 2) ["a"; "b c"] search_query).
  intros text i [<-|[<-|[]]]; destruct i as [|[|[|[|i]]]]; discriminate.
Defined.

(** Five documents with the default batch size: one batch. *)
Lemma embedDocuments_one_batch_witness :
  batchTexts 1 (adapter 96) five = Some [five]
  /\ exists result attempts,
       embedDocuments show remote_a 1 (adapter 96) five []
       = Some (result,
               [] ++ call_events (command_of show (adapter 96) five search_document)
                       attempts)
       /\ (1 <= attempts <= 4)%nat.
Proof.
  apply (embedDocuments_one_batch Z show remote_a 1 (adapter 96) five []).
  - simpl. lia.
  - cbn. lia.
  - lia.
Defined.

Lemma embedDocuments_requests_bounded_witness :
  exists batches result delta,
    batchTexts 5 (constructor (params (Some 2))) five = Some batches
    /\ embedDocuments show remote_first 5 (constructor (params (Some 2))) five []
       = Some (result, [] ++ delta)
    /\ Forall (fun command =>
                 exists batch,
                   In batch batches
                   /\ command
                      = command_of show (constructor (params (Some 2))) batch
                          (inputTypeDocument (constructor (params (Some 2))))
                   /\ (1 <= List.length batch <= 96)%nat)
         (sent delta).
Proof.
  apply (embedDocuments_requests_bounded Z show remote_first (params (Some 2)) 5 five []).
  - cbn. lia.
  - simpl. lia.
Defined.

(** Two documents in batches of one against a remote that always answers
    with two vectors: four vectors come back and nothing is raised. *)
Lemma embedDocuments_concatenates_witness :
  exists tr',
    embedDocuments show remote_pair 2 (adapter 1) ["a"; "b"] []
    = Some (inr (flat_map (fun _ => pair) [["a"]; ["b"]]), tr').
Proof.
  apply (embedDocuments_concatenates Z show remote_pair (fun _ => pair) 2
           (adapter 1) ["a"; "b"] [["a"]; ["b"]] []).
  - discriminate.
  - reflexivity.
  - intros batch tr0 _. eexists. cbn. reflexivity.
Defined.

Lemma embedDocuments_one_request_per_batch_witness :
  exists batches vectors tr',
    batchTexts 5 (adapter 2) five = Some batches
    /\ embedDocuments show remote_a 5 (adapter 2) five [] = Some (inr vectors, tr')
    /\ sent tr'
       = sent [] ++ map (fun batch => command_of show (adapter 2) batch
                                        (inputTypeDocument (adapter 2))) batches
    /\ Z.of_nat (List.length (sent tr'))
       = Z.of_nat (List.length (sent [])) + ceil_div (Z.of_nat (List.length five))
                                               (batchSize (adapter 2)).
Proof.
  apply (embedDocuments_one_request_per_batch Z show remote_a 5 (adapter 2) five []).
  - cbn. lia.
  - simpl. lia.
  - intros tr0 command. eexists. eexists. split; reflexivity.
Defined.

(** Two batches of two, then one more document. *)
Lemma embedDocuments_app_witness :
  embedDocuments show remote_a 5 (adapter 2) (["a"; "b"; "c"; "d"] ++ ["e"]) []
  = match embedDocuments show remote_a 5 (adapter 2) ["a"; "b"; "c"; "d"] [] with
    | Some (inr vectors, tr1) =>
        match embedDocuments show remote_a 5 (adapter 2) ["e"] tr1 with
        | Some (inr vectors', tr2) => Some (inr (vectors ++ vectors'), tr2)
        | failed => failed
        end
    | failed => failed
    end.
Proof.
  apply (embedDocuments_app Z show remote_a 5 (adapter 2)
           ["a"; "b"; "c"; "d"] ["e"] 2 []).
  - cbn. lia.
  - simpl. lia.
  - reflexivity.
Defined.

(** A v4 response whose [float] is the number 5. *)
Lemma embedQuery_embedDocuments_not_iterable_witness :
  (exists result,
     embedQuery show remote_number (adapter 2) "q" []
     = (inr result, call_events (command_of show (adapter 2) ["q"] search_query) 1))
  /\ exists e,
       embedDocuments show remote_number 1
         (with_inputTypeDocument (adapter 2) (inputTypeQuery (adapter 2))) ["q"] []
       = Some (inl e, call_events (command_of show (adapter 2) ["q"] search_query) 1)
       /\ name e = "TypeError".
Proof.
  apply (embedQuery_embedDocuments_not_iterable Z show remote_number 1 (adapter 2)
           "q" [] (JNum 5)).
  - cbn. lia.
  - lia.
  - reflexivity.
  - exact I.
Defined.

Lemma command_body_injective_witness :
  map replace_newlines [("one" ++ String newline "two")%string]
  = map replace_newlines ["one two"]
  /\ search_query = search_query
  /\ truncate (adapter 2) = truncate (adapter 96).
Proof.
  apply (command_body_injective Z show (adapter 2) (adapter 96)
           [("one" ++ String newline "two")%string] ["one two"]
           search_query search_query).
  reflexivity.
Defined.

End MoreWitnesses.
